(** * Raga detector: the Melakarta rule engine and the analysis pipeline

    A shallow embedding of [generate_melakartas.py] and of the numerical
    core of [raga_detector.py].

    Conventions.
    - Python integers are [Z]; [//] and [%] with a positive divisor are
      [Z.div] and [Z.modulo] (both floor towards minus infinity).
    - Python strings are [string]; lists are [list]; a dict whose iteration
      order matters is an association list in insertion order.
    - An expression that may raise is a computation in the [outcome] monad.
    - float64 values are modelled as real numbers ([R]); the one non-number
      that the code can produce, NaN, is modelled by [None] at the place
      where it arises.  IEEE rounding is outside the model. *)

From Stdlib Require Import ZArith List String Bool Lia Permutation Sorted.
From Stdlib Require Import DecimalString Classical_Prop.
From Stdlib Require Import Reals Lra Psatz.
Import ListNotations.

(** ** Python primitives *)

Module Py.

Inductive exn : Type :=
| IndexError      (* sequence index out of range *)
| ValueError      (* raised by numpy on malformed arguments *)
| DisplayError    (* whatever the external note formatter raises *)
| EmptyInput.     (* named by the specification; no code path constructs it *)

Inductive outcome (A : Type) : Type :=
| Return (a : A)
| Raise (e : exn).

Arguments Return {A} a.
Arguments Raise {A} e.

Definition bind {A B : Type} (m : outcome A) (k : A -> outcome B) : outcome B :=
  match m with
  | Return a => k a
  | Raise e => Raise e
  end.

Definition raises {A : Type} (m : outcome A) : Prop :=
  exists e, m = Raise e.

(** [l[i]]: a negative index counts from the end, anything outside
    [-len, len) raises [IndexError]. *)
Definition index {A : Type} (l : list A) (i : Z) : outcome A :=
  let n := Z.of_nat (List.length l) in
  let j := (if i <? 0 then i + n else i)%Z in
  if ((j <? 0) || (n <=? j))%Z then Raise IndexError
  else match nth_error l (Z.to_nat j) with
       | Some x => Return x
       | None => Raise IndexError
       end.

End Py.

Import Py.

Declare Scope outcome_scope.
Delimit Scope outcome_scope with outcome.
Notation "x <- m ;; k" := (bind m (fun x => k))
  (at level 61, m at next level, right associativity) : outcome_scope.
Notation "' p <- m ;; k" := (bind m (fun x => match x with p => k end))
  (at level 61, p pattern, m at next level, right associativity) : outcome_scope.

(** ** generate_melakartas.py *)

Module Melakarta.

Open Scope string_scope.
Open Scope Z_scope.
Open Scope outcome_scope.

Definition MELAKARTA_NAMES : list string :=
  [ (* Chakra 1 (Indu) *)
    "Kanakangi"; "Ratnangi"; "Ganamurti"; "Vanaspati"; "Manavati"; "Tanarupi";
    (* Chakra 2 (Netra) *)
    "Senavati"; "Hanumattodi"; "Dhenuka"; "Natakapriya"; "Kokilapriya"; "Rupavati";
    (* Chakra 3 (Agni) *)
    "Gayakapriya"; "Vakulabharanam"; "Mayamalavagowla"; "Chakravakam"; "Suryakantam"; "Hatakambari";
    (* Chakra 4 (Veda) *)
    "Jhankaradhwani"; "Natabhairavi"; "Kiravani"; "Kharaharapriya"; "Gourimanohari"; "Varunapriya";
    (* Chakra 5 (Bana) *)
    "Mararanjani"; "Charukesi"; "Sarasangi"; "Harikambhoji"; "Dheerasankarabharanam"; "Naganandini";
    (* Chakra 6 (Rutu) *)
    "Yagapriya"; "Ragavardhani"; "Gangeyabhushani"; "Vagadheeswari"; "Shulini"; "Chalanata";
    (* Chakra 7 (Rishi) *)
    "Salagam"; "Jalarnavam"; "Jhalavarali"; "Navaneetam"; "Pavani"; "Raghupriya";
    (* Chakra 8 (Vasu) *)
    "Gavambodhi"; "Bhavapriya"; "Shubhapantuvarali"; "Shadvidamargini"; "Suvarnangi"; "Divyamani";
    (* Chakra 9 (Brahma) *)
    "Dhavalambari"; "Namanarayani"; "Kamavardhani"; "Ramapriya"; "Gamanashrama"; "Viswambari";
    (* Chakra 10 (Disi) *)
    "Shyamalangi"; "Shanmukhapriya"; "Simhendramadhyamam"; "Hemavati"; "Dharmavati"; "Neetimati";
    (* Chakra 11 (Rudra) *)
    "Kantamani"; "Rishabhapriya"; "Latangi"; "Vachaspati"; "Mechakalyani"; "Chitrambari";
    (* Chakra 12 (Aditya) *)
    "Sucharitra"; "Jyotiswarupini"; "Dhatuvardhani"; "Nasikabhushani"; "Kosalam"; "Rasikapriya" ].

(** The three-way choice that chakras 1 and 2 share (source lines 87-89 and
    91-93): the label is read at [position - 1], or at [position - 4] once
    [position] exceeds 3, while the interval is read at
    [min (position - 1) 2]. *)
Definition r1_branch (position : Z) : outcome (string * string * Z * Z) :=
  G <- (if position <=? 3
        then index ["G1"; "G2"; "G3"] (position - 1)
        else index ["G1"; "G2"; "G3"] (position - 4)) ;;
  G_int <- index [3; 4; 4] (Z.min (position - 1) 2) ;;
  Return ("R1", G, 1, G_int).

Definition get_melakarta_structure (raga_number : Z)
  : outcome (list string * list Z) :=
  (* Suddha Madhyama (1-36) or Prati Madhyama (37-72) *)
  let '(M, M_int, adjusted_num) :=
    if raga_number <=? 36
    then ("M1", 5, raga_number)
    else ("M2", 6, raga_number - 36) in
  (* chakra and position within the chakra *)
  let chakra := (adjusted_num - 1) / 6 + 1 in
  let position := (adjusted_num - 1) mod 6 + 1 in
  (* R and G from the chakra *)
  '(R, G, R_int, G_int) <-
    (if chakra =? 1 then r1_branch position
     else if chakra =? 2 then r1_branch position
     else if chakra =? 3 then
       Return ("R2",
               (if position <=? 3 then "G2" else "G3"),
               2,
               (if position <=? 3 then 4 else 4))
     else if chakra =? 4 then Return ("R2", "G3", 2, 4)
     else if chakra =? 5 then Return ("R3", "G3", 3, 4)
     else Return ("R3", "G3", 3, 4)) ;;
  (* D and N from the position *)
  let '(D, N, D_int, N_int) :=
    if position =? 1 then ("D1", "N1", 8, 10)
    else if position =? 2 then ("D1", "N2", 8, 11)
    else if position =? 3 then ("D1", "N3", 8, 11)
    else if position =? 4 then ("D2", "N2", 9, 11)
    else if position =? 5 then ("D2", "N3", 9, 11)
    else ("D3", "N3", 10, 11) in
  let swaras := ["S"; R; G; M; "P"; D; N] in
  let intervals := [0; R_int; G_int; M_int; 7; D_int; N_int] in
  Return (swaras, intervals).

(** [test_known_ragas]: the table of published scales the generator is
    checked against, in source order. *)
Definition test_cases : list (Z * (string * list string * list Z)) :=
  [ (15, ("Mayamalavagowla",
          ["S"; "R1"; "G3"; "M1"; "P"; "D1"; "N3"], [0; 1; 4; 5; 7; 8; 11]));
    (28, ("Harikambhoji",
          ["S"; "R2"; "G3"; "M1"; "P"; "D2"; "N2"], [0; 2; 4; 5; 7; 9; 10]));
    (29, ("Dheerasankarabharanam",
          ["S"; "R2"; "G3"; "M1"; "P"; "D2"; "N3"], [0; 2; 4; 5; 7; 9; 11]));
    (65, ("Mechakalyani",
          ["S"; "R2"; "G3"; "M2"; "P"; "D2"; "N3"], [0; 2; 4; 6; 7; 9; 11]));
    (20, ("Natabhairavi",
          ["S"; "R2"; "G2"; "M1"; "P"; "D2"; "N2"], [0; 2; 3; 5; 7; 9; 10])) ].

Definition list_eqb {A : Type} (eqb : A -> A -> bool) : list A -> list A -> bool :=
  fix go (l1 l2 : list A) : bool :=
    match l1, l2 with
    | [], [] => true
    | x :: t1, y :: t2 => eqb x y && go t1 t2
    | _, _ => false
    end.

(** One iteration of the loop of [test_known_ragas]: the three marks it
    prints (name, swaras, intervals). *)
Definition known_raga_marks (case : Z * (string * list string * list Z))
  : outcome (Z * bool * bool * bool) :=
  let '(num, (expected_name, expected_swaras, expected_intervals)) := case in
  '(swaras, intervals) <- get_melakarta_structure num ;;
  actual_name <- index MELAKARTA_NAMES (num - 1) ;;
  Return (num,
          String.eqb actual_name expected_name,
          list_eqb String.eqb swaras expected_swaras,
          list_eqb Z.eqb intervals expected_intervals).

Fixpoint mapM {A B : Type} (f : A -> outcome B) (l : list A) : outcome (list B) :=
  match l with
  | [] => Return []
  | x :: t => y <- f x ;; ys <- mapM f t ;; Return (y :: ys)
  end.

Definition test_known_ragas : outcome (list (Z * bool * bool * bool)) :=
  mapM known_raga_marks test_cases.

(** The (label, interval) pairs of the scale of an index. *)
Definition labelled (raga_number : Z) : list (string * Z) :=
  match get_melakarta_structure raga_number with
  | Return (swaras, intervals) => combine swaras intervals
  | Raise _ => []
  end.

End Melakarta.

(** ** numpy primitives used by raga_detector.py, over the reals *)

Module Numpy.

Open Scope R_scope.
Open Scope outcome_scope.

(** A float64 array: its numbers, or the array filled with NaN that a
    division of zeros by zero yields. *)
Inductive ndarray : Type :=
| Arr (v : list R)
| NaNs.

Definition sum (v : list R) : R := fold_right Rplus 0 v.

Definition isum (v : list Z) : Z := fold_right Z.add 0%Z v.

Definition amin (a : list R) : R :=
  match a with
  | [] => 0
  | x :: t => fold_left Rmin t x
  end.

Definition amax (a : list R) : R :=
  match a with
  | [] => 0
  | x :: t => fold_left Rmax t x
  end.

(** [astype(int)]: truncation towards zero. *)
Definition astype_int (x : R) : Z :=
  if Rle_dec 0 x then Zfloor x else (- Zfloor (- x))%Z.

(** [np.round]: to the nearest integer, halves to the even neighbour. *)
Definition round (x : R) : R :=
  let n := Zfloor x in
  let d := x - IZR n in
  if Rlt_dec d (1 / 2) then IZR n
  else if Rlt_dec (1 / 2) d then IZR (n + 1)
  else if Z.even n then IZR n else IZR (n + 1).

(** Float [%] (np.remainder): the result has the sign of the divisor. *)
Definition remainder (x m : R) : R := x - m * IZR (Zfloor (x / m)).

Definition log2 (x : R) : R := ln x / ln 2.

Fixpoint imax (x : Z) (l : list Z) : Z :=
  match l with
  | [] => x
  | y :: t => imax (Z.max x y) t
  end.

(** [np.bincount(x, minlength=m)]: [ValueError] on a negative entry;
    otherwise position [k] counts the occurrences of [k], for [k] below
    [max(m, max(x) + 1)]. *)
Definition bincount (x : list Z) (minlength : nat) : outcome (list Z) :=
  if existsb (fun v => v <? 0)%Z x then Raise ValueError
  else
    let n := match x with
             | [] => minlength
             | y :: t => Nat.max minlength (Z.to_nat (imax y t + 1))
             end in
    Return (map (fun k => Z.of_nat (count_occ Z.eq_dec x (Z.of_nat k))) (seq 0 n)).

(** [np.argmax]: the first position holding the maximum. *)
Fixpoint argmax_from (best_i : nat) (best : Z) (i : nat) (l : list Z) : nat :=
  match l with
  | [] => best_i
  | x :: t => if (best <? x)%Z then argmax_from i x (S i) t
              else argmax_from best_i best (S i) t
  end.

Definition argmax (l : list Z) : outcome Z :=
  match l with
  | [] => Raise ValueError
  | x :: t => Return (Z.of_nat (argmax_from 0 x 1 t))
  end.

(** [np.linspace(start, stop, num)] with the end point included. *)
Definition linspace (start stop : R) (num : nat) : list R :=
  let div := INR (num - 1) in
  let step := (stop - start) / div in
  map (fun k => if (k =? num - 1)%nat then stop else INR k * step + start)
      (seq 0 num).

(** The range [np.histogram] spans: that of the data, [(0, 1)] for no
    data, widened by a half on both sides when it is a single point. *)
Definition outer_edges (a : list R) : R * R :=
  let '(first_edge, last_edge) :=
    match a with
    | [] => (0, 1)
    | _ => (amin a, amax a)
    end in
  if Req_dec_T first_edge last_edge
  then (first_edge - 1 / 2, last_edge + 1 / 2)
  else (first_edge, last_edge).

(** Bin of a sample among [n] equal bins; the right end of the range
    belongs to the last bin.  (numpy first drops the samples outside the
    range, of which there are none when the range is that of the data,
    and follows the index computation with a one-ulp repair against the
    computed edges, the identity in exact arithmetic.) *)
Definition bin_index (first_edge last_edge : R) (n : nat) (x : R) : Z :=
  let f_index := (x - first_edge) / (last_edge - first_edge) * INR n in
  let i := astype_int f_index in
  if (i =? Z.of_nat n)%Z then (i - 1)%Z else i.

(** [np.histogram(a, bins=n)]: the counts and the [n + 1] bin edges. *)
Definition histogram (a : list R) (bins : nat) : outcome (list Z * list R) :=
  if (bins =? 0)%nat then Raise ValueError
  else
    let '(first_edge, last_edge) := outer_edges a in
    let bin_edges := linspace first_edge last_edge (bins + 1) in
    let indices := map (bin_index first_edge last_edge bins) a in
    hist <- bincount indices bins ;;
    Return (hist, bin_edges).

Fixpoint update (v : list R) (j : nat) (x : R) : list R :=
  match v, j with
  | [], _ => []
  | _ :: t, O => x :: t
  | a :: t, S j' => a :: update t j' x
  end.

(** [v[i] = x] on an array; the index is resolved as for a list. *)
Definition setitem (v : list R) (i : Z) (x : R) : outcome (list R) :=
  let n := Z.of_nat (List.length v) in
  let j := (if i <? 0 then i + n else i)%Z in
  if ((j <? 0) || (n <=? j))%Z then Raise IndexError
  else Return (update v (Z.to_nat j) x).

(** [v / s] elementwise; the code only ever divides by the sum of [v],
    which vanishes only when [v] is all zeros: 0/0 is NaN. *)
Definition divide (v : list R) (s : R) : ndarray :=
  if Req_dec_T s 0 then NaNs else Arr (map (fun x => x / s) v).

Definition mean (v : list R) : R := sum v / INR (List.length v).

Fixpoint dot (u v : list R) : R :=
  match u, v with
  | a :: u', b :: v' => a * b + dot u' v'
  | _, _ => 0
  end.

Definition clip (x lo hi : R) : R := Rmin (Rmax x lo) hi.

(** [np.corrcoef(x, y)[0, 1]]: the covariance matrix with [N - 1] in the
    denominator, divided by both standard deviations and clipped to
    [-1, 1].  A vanishing deviation makes the quotient 0/0: [None] is NaN.
    Arrays of different lengths cannot be stacked: [ValueError]. *)
Definition corrcoef01 (x y : ndarray) : outcome (option R) :=
  match x, y with
  | Arr x, Arr y =>
      if (List.length x =? List.length y)%nat then
        let X0 := map (fun a => a - mean x) x in
        let X1 := map (fun a => a - mean y) y in
        let fact := INR (List.length x) - 1 in
        if Rle_dec fact 0 then Return None
        else
          let c00 := dot X0 X0 / fact in
          let c01 := dot X0 X1 / fact in
          let c11 := dot X1 X1 / fact in
          let stddev0 := sqrt c00 in
          let stddev1 := sqrt c11 in
          if Req_dec_T stddev0 0 then Return None
          else if Req_dec_T stddev1 0 then Return None
          else Return (Some (clip (c01 / stddev0 / stddev1) (-1) 1))
      else Raise ValueError
  | _, _ => Return None
  end.

End Numpy.

(** ** raga_detector.py *)

Module Detector.

Import Numpy.
Open Scope string_scope.
Open Scope R_scope.
Open Scope outcome_scope.

Record raga_info : Type := {
  swaras : list string;
  key_intervals : list Z;
  description : string
}.

(** The profile table, in the insertion order of the dict. *)
Definition RAGA_PATTERNS : list (string * raga_info) :=
  [ ("Mohanam",
     {| swaras := ["S"; "R2"; "G3"; "P"; "D2"];
        key_intervals := [0; 2; 4; 7; 9]%Z;
        description := "Janya of Harikambhoji, all shuddha swaras" |});
    ("Mayamalavagowla",
     {| swaras := ["S"; "R1"; "G3"; "M1"; "P"; "D1"; "N3"];
        key_intervals := [0; 1; 4; 5; 7; 8; 11]%Z;
        description := "15th Melakarta, morning raga" |});
    ("Shankarabharanam",
     {| swaras := ["S"; "R2"; "G3"; "M1"; "P"; "D2"; "N3"];
        key_intervals := [0; 2; 4; 5; 7; 9; 11]%Z;
        description := "29th Melakarta, very common" |});
    ("Kalyani",
     {| swaras := ["S"; "R2"; "G3"; "M2"; "P"; "D2"; "N3"];
        key_intervals := [0; 2; 4; 6; 7; 9; 11]%Z;
        description := "65th Melakarta, auspicious raga" |});
    ("Bhairavi",
     {| swaras := ["S"; "R1"; "G2"; "M1"; "P"; "D1"; "N2"];
        key_intervals := [0; 1; 3; 5; 7; 8; 10]%Z;
        description := "20th Melakarta, evening raga" |}) ].

(** *** extract_swara_distribution

    [semitone] is what the three array expressions of the source (cents,
    wrap to one octave, quantise) compute for one sample.  Meaningful for
    positive samples and a positive tonic; elsewhere float64 would go
    through infinities, which the model does not carry. *)
Definition semitone (tonic_hz f : R) : Z :=
  let cents := 1200 * log2 (f / tonic_hz) in
  let cents_wrapped := remainder cents 1200 in
  (astype_int (round (cents_wrapped / 100)) mod 12)%Z.

Definition extract_swara_distribution (f0_clean : list R) (tonic_hz : R)
  : outcome ndarray :=
  let semitones := map (semitone tonic_hz) f0_clean in
  swara_dist <- bincount semitones 12 ;;
  Return (divide (map IZR swara_dist) (IZR (isum swara_dist))).

(** *** match_raga *)

(** The loop [raga_profile[interval] = 1.0] over the intervals. *)
Fixpoint mark (raga_profile : list R) (intervals : list Z) : outcome (list R) :=
  match intervals with
  | [] => Return raga_profile
  | interval :: rest =>
      raga_profile' <- setitem raga_profile interval 1 ;;
      mark raga_profile' rest
  end.

Definition ideal_profile (intervals : list Z) : outcome ndarray :=
  raga_profile <- mark (repeat 0 12) intervals ;;
  Return (divide raga_profile (sum raga_profile)).

(** [d[k] = v] on a dict kept in insertion order. *)
Fixpoint dict_set {V : Type} (d : list (string * V)) (k : string) (v : V)
  : list (string * V) :=
  match d with
  | [] => [(k, v)]
  | (k', v') :: t =>
      if String.eqb k' k then (k', v) :: t else (k', v') :: dict_set t k v
  end.

Fixpoint score_all (patterns : list (string * raga_info)) (swara_dist : ndarray)
    (scores : list (string * option R)) : outcome (list (string * option R)) :=
  match patterns with
  | [] => Return scores
  | (raga_name, info) :: rest =>
      raga_profile <- ideal_profile (key_intervals info) ;;
      score <- corrcoef01 swara_dist raga_profile ;;
      score_all rest swara_dist (dict_set scores raga_name score)
  end.

(** [<] on scores; every comparison with NaN is false. *)
Definition score_lt (a b : option R) : bool :=
  match a, b with
  | Some x, Some y => if Rlt_dec x y then true else false
  | _, _ => false
  end.

(** A stable sort that only asks [lt]: each element goes in front of the
    first one it is smaller than.  It agrees with Python's sort whenever
    the answers of [lt] are those of a strict weak order, which covers
    keys that are all numbers and keys that are all NaN. *)
Fixpoint insert_stable {A : Type} (lt : A -> A -> bool) (x : A) (l : list A)
  : list A :=
  match l with
  | [] => [x]
  | y :: t => if lt x y then x :: y :: t else y :: insert_stable lt x t
  end.

Definition stable_sort {A : Type} (lt : A -> A -> bool) (l : list A) : list A :=
  fold_left (fun acc x => insert_stable lt x acc) l [].

(** [sorted(l, key=..., reverse=...)]: a reversed sort is the stable sort
    of the reversed list, reversed, so ties keep their original order. *)
Definition sorted {A K : Type} (key : A -> K) (lt : K -> K -> bool)
    (reverse : bool) (l : list A) : list A :=
  let by_key a b := lt (key a) (key b) in
  if reverse then rev (stable_sort by_key (rev l)) else stable_sort by_key l.

Definition match_raga_on (patterns : list (string * raga_info))
    (swara_dist : ndarray) : outcome (list (string * option R)) :=
  scores <- score_all patterns swara_dist [] ;;
  Return (sorted snd score_lt true scores).

Definition match_raga (swara_dist : ndarray)
  : outcome (list (string * option R)) :=
  match_raga_on RAGA_PATTERNS swara_dist.

Section Pipeline.

(** [librosa.hz_to_note], which [find_tonic] calls to print the tonic:
    [None] when it raises. *)
Variable hz_to_note : R -> option string.

(** *** find_tonic *)
Definition find_tonic (f0_clean : list R) : outcome R :=
  '(hist, bins) <- histogram f0_clean 100 ;;
  k <- argmax hist ;;
  tonic_hz <- index bins k ;;
  _ <- match hz_to_note tonic_hz with
       | Some note => Return note
       | None => Raise DisplayError
       end ;;
  Return tonic_hz.

(** *** analyze, from the voiced samples on ([extract_pitch] before it
    and [visualize] after the matching belong to librosa and matplotlib);
    [None] is the bare [return] after the message that no pitch was
    detected. *)
Definition analyze (f0_clean : list R) : outcome (option string) :=
  if (List.length f0_clean =? 0)%nat then Return None
  else
    tonic_hz <- find_tonic f0_clean ;;
    swara_dist <- extract_swara_distribution f0_clean tonic_hz ;;
    matches <- match_raga swara_dist ;;
    top <- index matches 0 ;;
    Return (Some (fst top)).

End Pipeline.

(** *** Vocabulary of the ranking properties *)

(** Position of a name in a list of names (insertion order of the dict). *)
Fixpoint index_of (names : list string) (n : string) : Z :=
  match names with
  | [] => 0
  | m :: t => if String.eqb m n then 0 else 1 + index_of t n
  end.

Definition store_index (patterns : list (string * raga_info)) (n : string) : Z :=
  index_of (map fst patterns) n.

(** A score that beats another one: a larger number, or any number
    against NaN. *)
Definition score_gt (a b : option R) : Prop :=
  match a, b with
  | Some x, Some y => y < x
  | Some _, None => True
  | None, _ => False
  end.

Definition score_tie (a b : option R) : Prop :=
  match a, b with
  | Some x, Some y => x = y
  | None, None => True
  | _, _ => False
  end.

(** The order of a ranking: by score, NaN last, ties by insertion order. *)
Definition ranks_before (ix : string -> Z) (a b : string * option R) : Prop :=
  score_gt (snd a) (snd b)
  \/ (score_tie (snd a) (snd b) /\ (ix (fst a) < ix (fst b))%Z).

(** Ascending by rank, ties by index: the order a stable sort produces. *)
Definition sorted_before {A : Type} (rk : A -> R) (ix : A -> Z) (a b : A)
  : Prop :=
  rk a < rk b \/ (rk a = rk b /\ (ix a < ix b)%Z).

(** The comparison [lt] answers like [<] on the ranks, on the elements of
    a list. *)
Definition agrees {A : Type} (lt : A -> A -> bool) (rk : A -> R) (l : list A)
  : Prop :=
  forall a b, In a l -> In b l -> (lt a b = true <-> rk a < rk b).

(** A profile that yields a usable reference distribution: some pitch
    class listed, every listed class within 0..11, some class left out. *)
Definition usable_profile (intervals : list Z) : Prop :=
  intervals <> []
  /\ Forall (fun i => 0 <= i < 12)%Z intervals
  /\ exists k, (0 <= k < 12)%Z /\ ~ In k intervals.

Definition same_classes (a b : list Z) : Prop :=
  forall k, In k a <-> In k b.

Definition usable_store (patterns : list (string * raga_info)) : Prop :=
  NoDup (map fst patterns)
  /\ Forall (fun p => usable_profile (key_intervals (snd p))) patterns.

(** The equal-weight distribution on the classes 0, 2, 4, 5, 7, 9, 11. *)
Definition major_scale_distribution : list R :=
  [1 / 7; 0; 1 / 7; 0; 1 / 7; 1 / 7; 0; 1 / 7; 0; 1 / 7; 0; 1 / 7].

End Detector.

(** ** generate_melakartas.py: the table generator *)

Module Generator.

Import Melakarta Detector.
Open Scope string_scope.
Open Scope Z_scope.
Open Scope outcome_scope.

(** [f'{i}'] for an integer: its decimal digits, with a minus sign when
    negative. *)
Definition str (i : Z) : string := NilZero.string_of_int (Z.to_int i).

(** [range(a, b)]. *)
Definition range (a b : Z) : list Z :=
  map (fun k => a + Z.of_nat k) (seq 0 (Z.to_nat (b - a))).

(** The loop of [generate_all_melakartas] over the indices still to do;
    [melakartas[name] = {...}] is an assignment into the dict built so
    far.  An entry has the three keys of the entries of [RAGA_PATTERNS]. *)
Fixpoint generate_from (indices : list Z)
    (melakartas : list (string * raga_info))
  : outcome (list (string * raga_info)) :=
  match indices with
  | [] => Return melakartas
  | i :: rest =>
      name <- index MELAKARTA_NAMES (i - 1) ;;
      '(swara_names, intervals) <- get_melakarta_structure i ;;
      generate_from rest
        (dict_set melakartas name
           (Build_raga_info swara_names intervals
              (str i ++ "th Melakarta raga")))
  end.

Definition generate_all_melakartas : outcome (list (string * raga_info)) :=
  generate_from (range 1 73) [].

(** The offsets that the module docstring gives for the swara variants
    (source lines 9-14), with the fixed S and P of the result lists. *)
Definition documented_offsets : list (string * Z) :=
  [ ("S", 0); ("P", 7);
    ("R1", 1); ("R2", 2); ("R3", 3);
    ("G1", 3); ("G2", 4); ("G3", 4);
    ("M1", 5); ("M2", 6);
    ("D1", 8); ("D2", 9); ("D3", 10);
    ("N1", 10); ("N2", 11); ("N3", 11) ].

(** The elements of a list without their later repetitions. *)
Fixpoint dedup {A : Type} (eqb : A -> A -> bool) (l : list A) : list A :=
  match l with
  | [] => []
  | x :: t => x :: filter (fun y => negb (eqb x y)) (dedup eqb t)
  end.

End Generator.

(** ** Proof tactics *)

Ltac div_mod_lia := Z.div_mod_to_equations; lia.

(** Case split on the six positions within a chakra. *)
Ltac split_position H :=
  destruct H as [-> | [-> | [-> | [-> | [-> | ->]]]]].

(** Case split on every test of the chakra in the goal. *)
Ltac split_chakra c :=
  repeat match goal with
         | |- context [(c =? ?k)%Z] => destruct (c =? k)%Z
         end.

(** Discharge every test of a chakra that is known to be none of 1..5. *)
Ltac skip_chakra c :=
  repeat match goal with
         | |- context [(c =? ?k)%Z] =>
             replace (c =? k)%Z with false by (symmetry; apply Z.eqb_neq; lia)
         end.

(** Run [tac] for each of the [k] integers from [lo] on that [n] can be,
    given hypotheses that confine [n] to them. *)
Ltac enumerate_from n lo k tac :=
  lazymatch k with
  | O => exfalso; lia
  | S ?k' =>
      destruct (Z.eq_dec n lo) as [-> | ?];
      [tac | enumerate_from n (lo + 1)%Z k' tac]
  end.

(** Two interval lists differ on the pitch class [k]. *)
Ltac differ_at E k :=
  let Ek := fresh in
  pose proof (E k) as Ek; vm_compute in Ek; discriminate Ek.

(** * Properties of the rule engine *)

Module MelakartaFacts.

Import Melakarta.
Open Scope string_scope.
Open Scope Z_scope.

Lemma position_range (a : Z) :
  let position := (a - 1) mod 6 + 1 in
  position = 1 \/ position = 2 \/ position = 3 \/
  position = 4 \/ position = 5 \/ position = 6.
Proof. cbv zeta. div_mod_lia. Qed.

(** The function is total on the integers, and its result always has the
    seven-slot shape with the intervals in strict order. *)
Lemma structure_shape (n : Z) :
  exists R G M D N R_int G_int M_int D_int N_int,
    get_melakarta_structure n =
      Return (["S"; R; G; M; "P"; D; N], [0; R_int; G_int; M_int; 7; D_int; N_int])
    /\ 1 <= R_int /\ R_int < G_int /\ G_int < M_int /\ M_int < 7
    /\ 7 < D_int /\ D_int < N_int /\ N_int <= 11.
Proof.
  unfold get_melakarta_structure.
  destruct (n <=? 36);
    match goal with
    | |- context [(?a - 1) mod 6 + 1] =>
        pose proof (position_range a) as Hp; cbv zeta in Hp;
        set (position := (a - 1) mod 6 + 1) in *;
        set (chakra := (a - 1) / 6 + 1); clearbody position chakra
    end;
    split_chakra chakra;
    split_position Hp; cbn;
    do 10 eexists; (split; [reflexivity | lia]).
Qed.

(** Outside 1..72 the chakra is none of 1..5, so the last branch of the
    R/G selection is taken. *)
Lemma structure_out_of_range (n : Z) :
  ~ (1 <= n <= 72) ->
  exists M D N M_int D_int N_int,
    get_melakarta_structure n =
      Return (["S"; "R3"; "G3"; M; "P"; D; N], [0; 3; 4; M_int; 7; D_int; N_int]).
Proof.
  intros Hn. unfold get_melakarta_structure.
  destruct (n <=? 36) eqn:E;
    [ apply Z.leb_le in E | apply Z.leb_gt in E ];
    match goal with
    | |- context [(?a - 1) mod 6 + 1] =>
        pose proof (position_range a) as Hp; cbv zeta in Hp;
        assert (Hc : (a - 1) / 6 + 1 <= 0 \/ 7 <= (a - 1) / 6 + 1)
          by div_mod_lia;
        set (position := (a - 1) mod 6 + 1) in *;
        set (chakra := (a - 1) / 6 + 1) in *; clearbody position chakra
    end;
    skip_chakra chakra;
    split_position Hp; cbn; do 6 eexists; reflexivity.
Qed.

(** C1.  The five published scales of [test_known_ragas] are not
    reproduced: on every one of the indices 15, 28, 29, 65 and 20 the name
    agrees, but both the swara sequence and the interval sequence differ.
    For index 29 the generator returns R3 with intervals
    [0,3,4,5,7,9,11], where the table has R2 and [0,2,4,5,7,9,11]. *)
Theorem known_ragas_not_reproduced :
  test_known_ragas =
    Return [ (15, true, false, false); (28, true, false, false);
             (29, true, false, false); (65, true, false, false);
             (20, true, false, false) ]
  /\ get_melakarta_structure 29 =
       Return (["S"; "R3"; "G3"; "M1"; "P"; "D2"; "N3"], [0; 3; 4; 5; 7; 9; 11])
  /\ index MELAKARTA_NAMES (29 - 1) = Return "Dheerasankarabharanam"
  /\ get_melakarta_structure 29 <>
       Return (["S"; "R2"; "G3"; "M1"; "P"; "D2"; "N3"], [0; 2; 4; 5; 7; 9; 11]).
Proof.
  repeat split; try reflexivity.
  vm_compute. discriminate.
Qed.

(** C2.  For every index from 1 to 72 the interval sequence has length 7,
    is strictly increasing, starts at 0 and stays within 0..11. *)
Theorem intervals_well_formed (i : Z) :
  1 <= i <= 72 ->
  exists swaras intervals,
    get_melakarta_structure i = Return (swaras, intervals)
    /\ List.length intervals = 7%nat
    /\ StronglySorted Z.lt intervals
    /\ nth_error intervals 0 = Some 0
    /\ Forall (fun v => 0 <= v <= 11) intervals.
Proof.
  intros _.
  destruct (structure_shape i)
    as (R & G & M & D & N & Ri & Gi & Mi & Di & Ni & E & H).
  do 2 eexists. split; [exact E |].
  split; [reflexivity |].
  split.
  - repeat (apply SSorted_cons; [| repeat constructor; lia]).
    apply SSorted_nil.
  - split; [reflexivity |].
    repeat (apply Forall_cons; [lia |]). apply Forall_nil.
Qed.

Lemma intervals_well_formed_29 :
  1 <= 29 <= 72 /\
  exists swaras intervals,
    get_melakarta_structure 29 = Return (swaras, intervals)
    /\ List.length intervals = 7%nat
    /\ StronglySorted Z.lt intervals
    /\ nth_error intervals 0 = Some 0
    /\ Forall (fun v => 0 <= v <= 11) intervals.
Proof.
  split; [lia | apply (intervals_well_formed 29); lia].
Defined.

(** C3, as the code has it.  There is no range check: for every integer
    outside 1..72 the call raises nothing and returns a seven-slot
    structure, with R3 and G3 (intervals 3 and 4) in the R and G slots. *)
Theorem out_of_range_returns (n : Z) :
  ~ (1 <= n <= 72) ->
  ~ raises (get_melakarta_structure n)
  /\ exists M D N M_int D_int N_int,
       get_melakarta_structure n =
         Return (["S"; "R3"; "G3"; M; "P"; D; N],
                 [0; 3; 4; M_int; 7; D_int; N_int]).
Proof.
  intros Hn.
  destruct (structure_out_of_range n Hn) as (M & D & N & Mi & Di & Ni & E).
  split.
  - intros [e He]. rewrite E in He. discriminate.
  - now exists M, D, N, Mi, Di, Ni.
Qed.

Lemma out_of_range_returns_73 :
  ~ (1 <= 73 <= 72) /\
  (~ raises (get_melakarta_structure 73)
   /\ exists M D N M_int D_int N_int,
        get_melakarta_structure 73 =
          Return (["S"; "R3"; "G3"; M; "P"; D; N],
                  [0; 3; 4; M_int; 7; D_int; N_int])).
Proof.
  split; [lia | apply (out_of_range_returns 73); lia].
Defined.

(** C3, as the specification has it, fails at 0 and at 73: both calls
    return a structure. *)
Lemma index_0_and_73_do_not_raise :
  get_melakarta_structure 0 =
    Return (["S"; "R3"; "G3"; "M1"; "P"; "D3"; "N3"], [0; 3; 4; 5; 7; 10; 11])
  /\ get_melakarta_structure 73 =
    Return (["S"; "R3"; "G3"; "M2"; "P"; "D1"; "N1"], [0; 3; 4; 6; 7; 8; 10])
  /\ ~ raises (get_melakarta_structure 0)
  /\ ~ raises (get_melakarta_structure 73).
Proof.
  repeat split; try reflexivity; intros [e He]; vm_compute in He; discriminate.
Qed.

(** C9.  The label G1 is not bound to one offset: index 1 pairs it with
    interval 3 and index 4 pairs it with interval 4. *)
Theorem G1_has_two_offsets :
  In ("G1", 3) (labelled 1) /\ In ("G1", 4) (labelled 4)
  /\ get_melakarta_structure 1 =
       Return (["S"; "R1"; "G1"; "M1"; "P"; "D1"; "N1"], [0; 1; 3; 5; 7; 8; 10])
  /\ get_melakarta_structure 4 =
       Return (["S"; "R1"; "G1"; "M1"; "P"; "D2"; "N2"], [0; 1; 4; 5; 7; 9; 11]).
Proof.
  repeat split; try reflexivity; vm_compute; tauto.
Qed.

End MelakartaFacts.

(** * Properties of the numpy primitives *)

Module NumpyFacts.

Import Numpy.
Open Scope R_scope.

(** ** Minimum and maximum *)

Lemma fold_Rmin_le (l : list R) (x : R) :
  fold_left Rmin l x <= x /\ Forall (fun y => fold_left Rmin l x <= y) l.
Proof.
  revert x. induction l as [| y l IH]; intros x; cbn.
  - split; [lra | constructor].
  - destruct (IH (Rmin x y)) as [H1 H2].
    pose proof (Rmin_l x y). pose proof (Rmin_r x y).
    split; [lra |]. constructor; [lra | exact H2].
Qed.

Lemma fold_Rmax_ge (l : list R) (x : R) :
  x <= fold_left Rmax l x /\ Forall (fun y => y <= fold_left Rmax l x) l.
Proof.
  revert x. induction l as [| y l IH]; intros x; cbn.
  - split; [lra | constructor].
  - destruct (IH (Rmax x y)) as [H1 H2].
    pose proof (Rmax_l x y). pose proof (Rmax_r x y).
    split; [lra |]. constructor; [lra | exact H2].
Qed.

Lemma fold_Rmin_in (l : list R) (x : R) :
  fold_left Rmin l x = x \/ In (fold_left Rmin l x) l.
Proof.
  revert x. induction l as [| y l IH]; intros x; cbn; [now left |].
  destruct (IH (Rmin x y)) as [E | E]; [| now right; right].
  rewrite E. unfold Rmin. destruct (Rle_dec x y); [now left | now right; left].
Qed.

Lemma amin_le (a : list R) : Forall (fun y => amin a <= y) a.
Proof.
  destruct a as [| x t]; [constructor |]. cbn.
  destruct (fold_Rmin_le t x). now constructor.
Qed.

Lemma amax_ge (a : list R) : Forall (fun y => y <= amax a) a.
Proof.
  destruct a as [| x t]; [constructor |]. cbn.
  destruct (fold_Rmax_ge t x). now constructor.
Qed.

Lemma amin_in (a : list R) : a <> [] -> In (amin a) a.
Proof.
  destruct a as [| x t]; [congruence | intros _]. cbn.
  destruct (fold_Rmin_in t x) as [E | E]; [left; now rewrite E | now right].
Qed.

Lemma amin_le_amax (a : list R) : a <> [] -> amin a <= amax a.
Proof.
  intros H. pose proof (amin_in a H) as Hin.
  pose proof (amax_ge a) as Hmax. rewrite Forall_forall in Hmax. now apply Hmax.
Qed.

(** ** Truncation and rounding *)

Lemma astype_int_IZR (z : Z) : astype_int (IZR z) = z.
Proof.
  unfold astype_int. destruct (Rle_dec 0 (IZR z)).
  - apply ZfloorZ.
  - rewrite ZfloorNZ. lia.
Qed.

Lemma astype_int_floor (x : R) : 0 <= x -> astype_int x = Zfloor x.
Proof. intros H. unfold astype_int. now destruct (Rle_dec 0 x). Qed.

Lemma round_integral (x : R) : exists z : Z, round x = IZR z.
Proof.
  unfold round.
  destruct (Rlt_dec _ _); [eauto |].
  destruct (Rlt_dec _ _); [eauto |].
  destruct (Z.even _); eauto.
Qed.

(** ** bincount *)

Lemma imax_le (t : list Z) (y m : Z) :
  (y <= m)%Z -> Forall (fun v => v <= m)%Z t -> (imax y t <= m)%Z.
Proof.
  revert y. induction t as [| z t IH]; intros y Hy Ht; cbn; [exact Hy |].
  inversion Ht; subst. apply IH; [lia | assumption].
Qed.

Lemma bincount_in_range (x : list Z) (m : nat) :
  Forall (fun v => 0 <= v < Z.of_nat m)%Z x ->
  bincount x m =
    Return (map (fun k => Z.of_nat (count_occ Z.eq_dec x (Z.of_nat k))) (seq 0 m)).
Proof.
  intros H. unfold bincount.
  assert (E : existsb (fun v => (v <? 0)%Z) x = false).
  { clear - H. induction H as [| v t Hv _ IH]; cbn; [reflexivity |].
    rewrite IH. replace (v <? 0)%Z with false; [reflexivity |].
    symmetry; apply Z.ltb_ge; lia. }
  rewrite E. destruct x as [| y t]; [reflexivity |].
  inversion H as [| ? ? Hy Ht]; subst.
  assert (imax y t <= Z.of_nat m - 1)%Z.
  { apply imax_le; [lia |]. eapply Forall_impl; [| exact Ht]. cbn; intros; lia. }
  replace (Nat.max m (Z.to_nat (imax y t + 1))) with m by lia.
  reflexivity.
Qed.

Lemma isum_map_add {A : Type} (f g : A -> Z) (l : list A) :
  isum (map (fun k => f k + g k)%Z l) = (isum (map f l) + isum (map g l))%Z.
Proof.
  unfold isum. induction l as [| a l IH]; cbn; [reflexivity | rewrite IH; lia].
Qed.

Lemma isum_unit (y : Z) (m s : nat) :
  isum (map (fun k => if Z.eq_dec y (Z.of_nat k) then 1 else 0)%Z (seq s m)) =
    (if (Z.of_nat s <=? y)%Z && (y <? Z.of_nat (s + m))%Z then 1 else 0)%Z.
Proof.
  revert s. induction m as [| m IH]; intros s; cbn [seq map isum fold_right].
  - destruct (Z.leb_spec (Z.of_nat s) y), (Z.ltb_spec y (Z.of_nat (s + 0)));
      cbn; lia.
  - change (fold_right Z.add 0%Z ?l) with (isum l). rewrite IH.
    destruct (Z.eq_dec y (Z.of_nat s)),
      (Z.leb_spec (Z.of_nat (S s)) y), (Z.ltb_spec y (Z.of_nat (S s + m))),
      (Z.leb_spec (Z.of_nat s) y), (Z.ltb_spec y (Z.of_nat (s + S m)));
      cbn; lia.
Qed.

(** The counts of in-range data add up to the number of data. *)
Lemma isum_counts (x : list Z) (m : nat) :
  Forall (fun v => 0 <= v < Z.of_nat m)%Z x ->
  isum (map (fun k => Z.of_nat (count_occ Z.eq_dec x (Z.of_nat k))) (seq 0 m))
    = Z.of_nat (List.length x).
Proof.
  induction 1 as [| y t Hy _ IH].
  - cbn [count_occ]. induction (seq 0 m); cbn; [reflexivity | assumption].
  - rewrite (map_ext _
      (fun k => (if Z.eq_dec y (Z.of_nat k) then 1 else 0)
                + Z.of_nat (count_occ Z.eq_dec t (Z.of_nat k)))%Z).
    + rewrite isum_map_add, IH, isum_unit.
      replace ((Z.of_nat 0 <=? y)%Z && (y <? Z.of_nat (0 + m))%Z) with true.
      * cbn [List.length]. lia.
      * symmetry. apply andb_true_iff.
        split; [apply Z.leb_le | apply Z.ltb_lt]; cbn; lia.
    + intros k. cbn [count_occ]. destruct (Z.eq_dec y (Z.of_nat k)); lia.
Qed.

Lemma bincount_length (x : list Z) (m : nat) (h : list Z) :
  Forall (fun v => 0 <= v < Z.of_nat m)%Z x ->
  bincount x m = Return h -> List.length h = m.
Proof.
  intros H E. rewrite (bincount_in_range x m H) in E.
  injection E as <-. now rewrite length_map, length_seq.
Qed.

(** ** argmax *)

Lemma argmax_from_first_max (l pre : list Z) (bi : nat) (b : Z) :
  nth_error pre bi = Some b ->
  (forall j v, nth_error pre j = Some v -> (v <= b)%Z) ->
  (forall j v, (j < bi)%nat -> nth_error pre j = Some v -> (v < b)%Z) ->
  let k := argmax_from bi b (List.length pre) l in
  exists m,
    nth_error (pre ++ l) k = Some m
    /\ (forall j v, nth_error (pre ++ l) j = Some v -> (v <= m)%Z)
    /\ (forall j v, (j < k)%nat -> nth_error (pre ++ l) j = Some v -> (v < m)%Z).
Proof.
  revert pre bi b. induction l as [| x t IH]; intros pre bi b Hb Hle Hlt; cbn.
  - rewrite app_nil_r. eauto.
  - assert (Hbi : (bi < List.length pre)%nat)
      by (apply nth_error_Some; congruence).
    replace (pre ++ x :: t) with ((pre ++ [x]) ++ t)
      by (now rewrite <- app_assoc).
    replace (S (List.length pre)) with (List.length (pre ++ [x]))
      by (rewrite length_app; cbn; lia).
    assert (Hin : forall j v, nth_error (pre ++ [x]) j = Some v ->
                    ((j < List.length pre)%nat /\ nth_error pre j = Some v)
                    \/ (j = List.length pre /\ v = x)).
    { intros j v Hj. destruct (Nat.lt_ge_cases j (List.length pre)).
      - left. rewrite nth_error_app1 in Hj; auto.
      - right. rewrite nth_error_app2 in Hj by lia.
        destruct (j - List.length pre)%nat as [| [| d]] eqn:Ed;
          cbn in Hj; try discriminate.
        injection Hj as <-. split; [lia | reflexivity]. }
    destruct (Z.ltb_spec b x).
    + apply IH.
      * rewrite nth_error_app2 by lia. now rewrite Nat.sub_diag.
      * intros j v Hj. destruct (Hin j v Hj) as [[_ Hj'] | [_ ->]]; [| lia].
        specialize (Hle j v Hj'). lia.
      * intros j v Hlt' Hj.
        destruct (Hin j v Hj) as [[_ Hj'] | [-> _]].
        -- specialize (Hle j v Hj'). lia.
        -- lia.
    + apply IH.
      * rewrite nth_error_app1 by lia. exact Hb.
      * intros j v Hj. destruct (Hin j v Hj) as [[_ Hj'] | [_ ->]]; [| lia].
        exact (Hle j v Hj').
      * intros j v Hlt' Hj.
        destruct (Hin j v Hj) as [[_ Hj'] | [-> _]]; [| lia].
        exact (Hlt j v Hlt' Hj').
Qed.

(** [argmax] succeeds on a non-empty list and returns the first position
    that holds the maximum. *)
Lemma argmax_first_max (l : list Z) :
  l <> [] ->
  exists (k : nat) (m : Z),
    argmax l = Return (Z.of_nat k)
    /\ nth_error l k = Some m
    /\ (forall j v, nth_error l j = Some v -> (v <= m)%Z)
    /\ (forall j v, (j < k)%nat -> nth_error l j = Some v -> (v < m)%Z).
Proof.
  destruct l as [| x t]; [congruence | intros _].
  destruct (argmax_from_first_max t [x] 0 x) as (m & H1 & H2 & H3).
  - reflexivity.
  - intros [| [| j]] v Hj; cbn in Hj; try discriminate.
    injection Hj as <-. lia.
  - intros j v Hj. lia.
  - exists (argmax_from 0 x 1 t), m. cbn in *. auto.
Qed.

(** ** linspace and histogram *)

Lemma linspace_nth (a b : R) (num k : nat) :
  (k < num)%nat ->
  nth_error (linspace a b num) k =
    Some (if (k =? num - 1)%nat then b
          else INR k * ((b - a) / INR (num - 1)) + a).
Proof.
  intros H. unfold linspace. rewrite nth_error_map, nth_error_seq.
  apply Nat.ltb_lt in H. now rewrite H.
Qed.

Lemma counts_nth (x : list Z) (m k : nat) :
  (k < m)%nat ->
  nth_error
    (map (fun k => Z.of_nat (count_occ Z.eq_dec x (Z.of_nat k))) (seq 0 m)) k
  = Some (Z.of_nat (count_occ Z.eq_dec x (Z.of_nat k))).
Proof.
  intros H. rewrite nth_error_map, nth_error_seq.
  apply Nat.ltb_lt in H. now rewrite H.
Qed.

Lemma INR_100 : INR 100 = 100.
Proof. rewrite INR_IZR_INZ. reflexivity. Qed.

(** The range of non-empty data is never empty and contains the data. *)
Lemma outer_edges_spec (a : list R) :
  a <> [] ->
  exists lo hi,
    outer_edges a = (lo, hi) /\ lo < hi
    /\ Forall (fun x => lo <= x <= hi) a
    /\ ((amin a < amax a /\ lo = amin a /\ hi = amax a)
        \/ (amin a = amax a /\ lo = amin a - 1 / 2 /\ hi = amax a + 1 / 2)).
Proof.
  intros Ha. pose proof (amin_le_amax a Ha) as Hle.
  pose proof (amin_le a) as Hmin. pose proof (amax_ge a) as Hmax.
  unfold outer_edges. destruct a as [| x t] eqn:Ea; [congruence |].
  rewrite <- Ea in *. clear Ea.
  destruct (Req_dec_T (amin a) (amax a)) as [E | E].
  - exists (amin a - 1 / 2), (amax a + 1 / 2).
    repeat split; [lra | | right; repeat split; lra].
    rewrite Forall_forall in *. intros y Hy.
    specialize (Hmin y Hy). specialize (Hmax y Hy). lra.
  - exists (amin a), (amax a).
    repeat split; [lra | | left; repeat split; lra].
    rewrite Forall_forall in *. intros y Hy.
    specialize (Hmin y Hy). specialize (Hmax y Hy). lra.
Qed.

Lemma bin_index_range (lo hi : R) (n : nat) (x : R) :
  lo < hi -> lo <= x <= hi -> (0 < n)%nat ->
  (0 <= bin_index lo hi n x < Z.of_nat n)%Z.
Proof.
  intros Hlh Hx Hn. unfold bin_index.
  set (t := (x - lo) / (hi - lo)).
  assert (Ht : t * (hi - lo) = x - lo) by (unfold t; field; lra).
  assert (Ht01 : 0 <= t <= 1) by nra.
  assert (HN : 1 <= INR n) by (change 1 with (INR 1); apply le_INR; lia).
  assert (Hf : 0 <= t * INR n <= INR n) by nra.
  rewrite astype_int_floor by lra.
  pose proof (Zfloor_bound (t * INR n)) as Hb.
  assert (0 <= Zfloor (t * INR n))%Z by (apply Zfloor_lub; lra).
  assert (Zfloor (t * INR n) <= Z.of_nat n)%Z.
  { apply le_IZR. rewrite <- INR_IZR_INZ. lra. }
  destruct (Z.eqb_spec (Zfloor (t * INR n)) (Z.of_nat n)); lia.
Qed.

(** On non-empty data the histogram is defined; its counts are those of
    the bin indices and its edges the [linspace] of the range. *)
Lemma histogram_nonempty (a : list R) (n : nat) :
  a <> [] -> (0 < n)%nat ->
  exists lo hi,
    outer_edges a = (lo, hi)
    /\ Forall (fun v => 0 <= v < Z.of_nat n)%Z (map (bin_index lo hi n) a)
    /\ histogram a n =
         Return (map (fun k => Z.of_nat
                        (count_occ Z.eq_dec (map (bin_index lo hi n) a)
                                   (Z.of_nat k)))
                     (seq 0 n),
                 linspace lo hi (n + 1)).
Proof.
  intros Ha Hn.
  destruct (outer_edges_spec a Ha) as (lo & hi & E & Hlh & Hin & _).
  assert (Hr : Forall (fun v => 0 <= v < Z.of_nat n)%Z
                 (map (bin_index lo hi n) a)).
  { rewrite Forall_map. eapply Forall_impl; [| exact Hin].
    intros x Hx. now apply bin_index_range. }
  exists lo, hi. split; [exact E |]. split; [exact Hr |].
  unfold histogram. rewrite E.
  replace (n =? 0)%nat with false by (symmetry; apply Nat.eqb_neq; lia).
  now rewrite (bincount_in_range _ n Hr).
Qed.

(** With no data the range is (0, 1) and every count is 0. *)
Lemma histogram_empty :
  histogram [] 100 = Return (repeat 0%Z 100, linspace 0 1 101).
Proof.
  unfold histogram, outer_edges.
  destruct (Req_dec_T 0 1) as [E | _]; [lra |].
  reflexivity.
Qed.

End NumpyFacts.

(** * Properties of the analysis pipeline *)

Module DetectorFacts.

Import Numpy NumpyFacts Detector.
Open Scope R_scope.

Lemma index_nth {A : Type} (l : list A) (k : nat) (x : A) :
  nth_error l k = Some x -> index l (Z.of_nat k) = Return x.
Proof.
  intros H. assert (Hk : (k < List.length l)%nat)
    by (apply nth_error_Some; congruence).
  unfold index.
  replace (Z.of_nat k <? 0)%Z with false by (symmetry; apply Z.ltb_ge; lia).
  replace (Z.of_nat k <? 0)%Z with false by (symmetry; apply Z.ltb_ge; lia).
  replace (Z.of_nat (List.length l) <=? Z.of_nat k)%Z with false
    by (symmetry; apply Z.leb_gt; lia).
  cbn [orb]. rewrite Nat2Z.id. now rewrite H.
Qed.

Section FindTonic.

Variable hz_to_note : R -> option string.

(** What [find_tonic] does with no data: bin 0 of the default range
    [(0, 1)] is selected, so the tonic is 0; the only failure possible is
    that of the note formatter. *)
Lemma find_tonic_empty_value :
  find_tonic hz_to_note [] =
    match hz_to_note 0 with
    | Some _ => Return 0
    | None => Raise DisplayError
    end.
Proof.
  unfold find_tonic. rewrite histogram_empty. cbn [bind].
  change (argmax (repeat 0%Z 100)) with (Return (A := Z) (Z.of_nat 0)).
  cbn [bind].
  rewrite (index_nth _ 0 0).
  - cbn [bind]. now destruct (hz_to_note 0).
  - rewrite linspace_nth by lia. cbn [Nat.eqb Nat.sub].
    f_equal. change (INR 0) with 0. ring.
Qed.

(** C10.  On non-empty positive data (and a note formatter that accepts
    positive frequencies) [find_tonic] returns the left edge [bins[k]] of
    the first bin [k] whose count is maximal among the 100 bins: no bin
    has a larger count and every earlier bin has a strictly smaller one.
    The value lies between the smallest and the largest sample. *)
Theorem find_tonic_first_modal_edge (f0_clean : list R) :
  f0_clean <> [] ->
  Forall (fun f => 0 < f) f0_clean ->
  (forall x, 0 < x -> hz_to_note x <> None) ->
  exists (hist : list Z) (bins : list R) (k : nat) (tonic_hz : R),
    histogram f0_clean 100 = Return (hist, bins)
    /\ List.length hist = 100%nat
    /\ (k < 100)%nat
    /\ nth_error bins k = Some tonic_hz
    /\ (forall j, (j < 100)%nat -> (nth j hist 0 <= nth k hist 0)%Z)
    /\ (forall j, (j < k)%nat -> (nth j hist 0 < nth k hist 0)%Z)
    /\ find_tonic hz_to_note f0_clean = Return tonic_hz
    /\ amin f0_clean <= tonic_hz <= amax f0_clean.
Proof.
  intros Hne Hpos Hnote.
  destruct (histogram_nonempty f0_clean 100 Hne) as (lo & hi & E & Hr & Hh);
    [lia |].
  destruct (outer_edges_spec f0_clean Hne) as (lo' & hi' & E' & Hlh & Hin & Hc).
  rewrite E in E'. injection E' as <- <-.
  set (indices := map (bin_index lo hi 100) f0_clean) in *.
  set (hist := map (fun k => Z.of_nat (count_occ Z.eq_dec indices (Z.of_nat k)))
                   (seq 0 100)) in *.
  assert (Hlen : List.length hist = 100%nat)
    by (unfold hist; now rewrite length_map, length_seq).
  destruct (argmax_first_max hist) as (k & m & Hk & Hnth & Hmax & Hfirst).
  { intros Hnil. rewrite Hnil in Hlen. discriminate. }
  assert (Hk100 : (k < 100)%nat)
    by (rewrite <- Hlen; apply nth_error_Some; congruence).
  set (tonic_hz := INR k * ((hi - lo) / 100) + lo).
  assert (Hedge : nth_error (linspace lo hi (100 + 1)) k = Some tonic_hz).
  { rewrite linspace_nth by lia.
    change (100 + 1 - 1)%nat with 100%nat. rewrite INR_100.
    replace (k =? 100)%nat with false by (symmetry; apply Nat.eqb_neq; lia).
    reflexivity. }
  assert (Hkm : nth k hist 0%Z = m) by (now apply nth_error_nth).
  assert (Hbound : amin f0_clean <= tonic_hz <= amax f0_clean).
  { assert (HkR : 0 <= INR k <= 100).
    { split; [apply pos_INR |]. rewrite <- INR_100. apply le_INR. lia. }
    destruct Hc as [(Hlt & -> & ->) | (Heq & -> & ->)].
    - unfold tonic_hz. nra.
    - (* a single point: every sample sits in bin 50, whose left edge is
         the point itself *)
      assert (Hall : Forall (eq 50%Z) indices).
      { unfold indices. rewrite Forall_map.
        pose proof (amin_le f0_clean) as Hmin.
        pose proof (amax_ge f0_clean) as Hmx.
        rewrite Forall_forall in *. intros x Hx.
        specialize (Hmin x Hx). specialize (Hmx x Hx).
        assert (x = amin f0_clean) as -> by lra.
        unfold bin_index. rewrite INR_100.
        replace ((amin f0_clean - (amin f0_clean - 1 / 2)) /
                 (amax f0_clean + 1 / 2 - (amin f0_clean - 1 / 2)) * 100)
          with (IZR 50) by (rewrite <- Heq; field; lra).
        now rewrite astype_int_IZR. }
      apply Forall_eq_repeat in Hall.
      assert (H50 : nth_error hist 50 = Some (Z.of_nat (List.length indices))).
      { unfold hist. rewrite counts_nth by lia. f_equal. f_equal.
        rewrite Hall at 1. now apply count_occ_repeat_eq. }
      assert (Hk50 : k = 50%nat).
      { destruct (Nat.eq_dec k 50) as [| Hneq]; [assumption | exfalso].
        assert (Hz : nth_error hist k = Some 0%Z).
        { unfold hist. rewrite counts_nth by lia. f_equal.
          rewrite Hall. rewrite count_occ_repeat_neq; [reflexivity | lia]. }
        rewrite Hz in Hnth. injection Hnth as <-.
        specialize (Hmax _ _ H50).
        assert (List.length indices <> 0%nat).
        { unfold indices. rewrite length_map.
          destruct f0_clean; [congruence | discriminate]. }
        lia. }
      unfold tonic_hz. rewrite Hk50.
      replace (INR 50) with 50 by (rewrite INR_IZR_INZ; reflexivity).
      lra. }
  exists hist, (linspace lo hi (100 + 1)), k, tonic_hz.
  split; [exact Hh |]. split; [exact Hlen |]. split; [exact Hk100 |].
  split; [exact Hedge |].
  split.
  { intros j Hj. rewrite Hkm.
    destruct (nth_error hist j) as [v |] eqn:Ej.
    - rewrite (nth_error_nth _ _ _ Ej). eapply Hmax; eassumption.
    - apply nth_error_None in Ej. lia. }
  split.
  { intros j Hj. rewrite Hkm.
    destruct (nth_error hist j) as [v |] eqn:Ej.
    - rewrite (nth_error_nth _ _ _ Ej). eapply Hfirst; eassumption.
    - apply nth_error_None in Ej. lia. }
  split; [| exact Hbound].
  unfold find_tonic. rewrite Hh. cbn [bind]. rewrite Hk. cbn [bind].
  rewrite (index_nth _ _ _ Hedge). cbn [bind].
  assert (Hp : 0 < tonic_hz).
  { pose proof (amin_in f0_clean Hne) as Hi.
    rewrite Forall_forall in Hpos. specialize (Hpos _ Hi). lra. }
  specialize (Hnote _ Hp).
  now destruct (hz_to_note tonic_hz).
Qed.

(** C4, as the code has it.  [find_tonic] has no check for missing data:
    on the empty sequence it reads 0 from the default histogram range and
    either returns it or fails in the note formatter; it never raises
    [EmptyInput].  The check is made by the caller: [analyze] stops with
    [None] on the empty sequence, before [find_tonic] is called. *)
Theorem find_tonic_empty_unguarded :
  find_tonic hz_to_note [] =
    match hz_to_note 0 with
    | Some _ => Return 0
    | None => Raise DisplayError
    end
  /\ find_tonic hz_to_note [] <> Raise EmptyInput
  /\ analyze hz_to_note [] = Return None.
Proof.
  split; [apply find_tonic_empty_value |].
  split; [| reflexivity].
  rewrite find_tonic_empty_value. destruct (hz_to_note 0); discriminate.
Qed.

End FindTonic.

(** C4, as the specification has it, fails: whatever the note formatter
    does, [find_tonic] on the empty sequence does not raise [EmptyInput]. *)
Lemma find_tonic_empty_not_EmptyInput :
  ~ exists hz_to_note, find_tonic hz_to_note [] = Raise EmptyInput.
Proof.
  intros [hz H]. rewrite find_tonic_empty_value in H.
  destruct (hz 0); discriminate.
Qed.

(** A tie at work: with one sample in the first bin and one in the last,
    the first bin wins and its left edge, the smaller sample, is returned. *)
Lemma find_tonic_tie_example :
  find_tonic (fun _ => Some "A3"%string) [220; 440] = Return 220.
Proof.
  assert (E : outer_edges [220; 440] = (220, 440)).
  { unfold outer_edges, amin, amax. cbn [fold_left].
    rewrite Rmin_left, Rmax_right by lra.
    destruct (Req_dec_T 220 440); [lra | reflexivity]. }
  assert (I1 : bin_index 220 440 100 220 = 0%Z).
  { unfold bin_index. rewrite INR_100.
    replace ((220 - 220) / (440 - 220) * 100) with (IZR 0) by lra.
    now rewrite astype_int_IZR. }
  assert (I2 : bin_index 220 440 100 440 = 99%Z).
  { unfold bin_index. rewrite INR_100.
    replace ((440 - 220) / (440 - 220) * 100) with (IZR 100) by (field; lra).
    now rewrite astype_int_IZR. }
  unfold find_tonic, histogram. cbn [Nat.eqb]. rewrite E. cbn [map].
  rewrite I1, I2.
  replace (bincount [0%Z; 99%Z] 100)
    with (Return (1%Z :: repeat 0%Z 98 ++ [1%Z])%list)
    by (vm_compute; reflexivity).
  cbn [bind].
  replace (argmax (1%Z :: repeat 0%Z 98 ++ [1%Z])%list) with (Return 0%Z)
    by (vm_compute; reflexivity).
  cbn [bind].
  rewrite (index_nth _ 0 220); [reflexivity |].
  rewrite linspace_nth by lia. cbn [Nat.eqb Nat.add Nat.sub].
  f_equal. change (INR 0) with 0. ring.
Qed.

Lemma find_tonic_first_modal_edge_example :
  let hz_to_note := fun _ : R => Some "A"%string in
  let f0_clean := [220; 220; 440] in
  f0_clean <> []
  /\ Forall (fun f => 0 < f) f0_clean
  /\ (forall x, 0 < x -> hz_to_note x <> None)
  /\ exists (hist : list Z) (bins : list R) (k : nat) (tonic_hz : R),
       histogram f0_clean 100 = Return (hist, bins)
       /\ List.length hist = 100%nat
       /\ (k < 100)%nat
       /\ nth_error bins k = Some tonic_hz
       /\ (forall j, (j < 100)%nat -> (nth j hist 0 <= nth k hist 0)%Z)
       /\ (forall j, (j < k)%nat -> (nth j hist 0 < nth k hist 0)%Z)
       /\ find_tonic hz_to_note f0_clean = Return tonic_hz
       /\ amin f0_clean <= tonic_hz <= amax f0_clean.
Proof.
  cbv zeta.
  assert (H1 : [220; 220; 440] <> []) by discriminate.
  assert (H2 : Forall (fun f => 0 < f) [220; 220; 440])
    by (repeat constructor; lra).
  assert (H3 : forall x : R, 0 < x -> Some "A"%string <> None)
    by (intros; discriminate).
  split; [exact H1 |]. split; [exact H2 |]. split; [exact H3 |].
  exact (find_tonic_first_modal_edge (fun _ => Some "A"%string)
           [220; 220; 440] H1 H2 H3).
Defined.

(** ** extract_swara_distribution *)

Lemma ln_2_pos : 0 < ln 2.
Proof. rewrite <- ln_1. apply ln_increasing; lra. Qed.

Lemma log2_double (x : R) : 0 < x -> log2 (2 * x) = log2 x + 1.
Proof.
  intros H. unfold log2. rewrite ln_mult by lra.
  pose proof ln_2_pos. field. lra.
Qed.

Lemma remainder_add_period (x m : R) :
  0 < m -> remainder (x + m) m = remainder x m.
Proof.
  intros H. unfold remainder.
  replace ((x + m) / m) with (x / m + IZR 1) by (field; lra).
  rewrite Zfloor_addz, plus_IZR. ring.
Qed.

(** One octave up lands in the same pitch class. *)
Lemma semitone_double (tonic_hz f : R) :
  0 < tonic_hz -> 0 < f -> semitone tonic_hz (2 * f) = semitone tonic_hz f.
Proof.
  intros Ht Hf. unfold semitone.
  replace (2 * f / tonic_hz) with (2 * (f / tonic_hz)) by (field; lra).
  rewrite log2_double by (apply Rdiv_lt_0_compat; assumption).
  replace (1200 * (log2 (f / tonic_hz) + 1))
    with (1200 * log2 (f / tonic_hz) + 1200) by ring.
  now rewrite remainder_add_period by lra.
Qed.

Lemma semitone_range (tonic_hz f : R) : (0 <= semitone tonic_hz f < 12)%Z.
Proof. unfold semitone. apply Z.mod_pos_bound. lia. Qed.

Lemma sum_map_div (v : list R) (s : R) :
  sum (map (fun x => x / s) v) = sum v / s.
Proof.
  unfold sum. induction v as [| a v IH]; cbn; [unfold Rdiv; ring |].
  rewrite IH. unfold Rdiv. ring.
Qed.

Lemma sum_map_IZR (h : list Z) : sum (map IZR h) = IZR (isum h).
Proof.
  unfold sum, isum. induction h as [| a h IH]; cbn; [reflexivity |].
  now rewrite IH, plus_IZR.
Qed.

(** On non-empty data the distribution is an array of 12 numbers that sum
    to 1: the counts of the pitch classes over their total. *)
Lemma extract_swara_distribution_value (f0_clean : list R) (tonic_hz : R) :
  f0_clean <> [] ->
  exists d,
    extract_swara_distribution f0_clean tonic_hz = Return (Arr d)
    /\ List.length d = 12%nat
    /\ sum d = 1.
Proof.
  intros Hne. unfold extract_swara_distribution.
  set (semitones := map (semitone tonic_hz) f0_clean).
  assert (Hr : Forall (fun v => 0 <= v < Z.of_nat 12)%Z semitones).
  { unfold semitones. rewrite Forall_map. apply Forall_forall.
    intros f _. apply semitone_range. }
  rewrite (bincount_in_range _ _ Hr). cbn [bind].
  set (h := map _ (seq 0 12)).
  assert (Hs : isum h = Z.of_nat (List.length f0_clean)).
  { unfold h. rewrite (isum_counts _ _ Hr). unfold semitones.
    now rewrite length_map. }
  assert (Hn : IZR (isum h) <> 0).
  { rewrite Hs. apply not_0_IZR. destruct f0_clean; [congruence | cbn; lia]. }
  unfold divide. destruct (Req_dec_T (IZR (isum h)) 0) as [E | _];
    [contradiction |].
  eexists. split; [reflexivity |]. split.
  - unfold h. now rewrite !length_map, length_seq.
  - rewrite sum_map_div, sum_map_IZR. now field.
Qed.

(** C5.  Doubling every sample leaves the distribution unchanged (and both
    sides are arrays of numbers). *)
Theorem octave_invariance (f0_clean : list R) (tonic_hz : R) :
  f0_clean <> [] ->
  Forall (fun f => 0 < f) f0_clean ->
  0 < tonic_hz ->
  extract_swara_distribution (map (Rmult 2) f0_clean) tonic_hz =
    extract_swara_distribution f0_clean tonic_hz
  /\ exists d, extract_swara_distribution f0_clean tonic_hz = Return (Arr d).
Proof.
  intros Hne Hpos Ht. split.
  - unfold extract_swara_distribution. rewrite map_map.
    rewrite (map_ext_in (fun f => semitone tonic_hz (2 * f))
                        (semitone tonic_hz)); [reflexivity |].
    intros f Hf. rewrite Forall_forall in Hpos.
    apply semitone_double; auto.
  - destruct (extract_swara_distribution_value f0_clean tonic_hz Hne)
      as (d & E & _). now exists d.
Qed.

Lemma octave_invariance_example :
  let f0_clean := [220; 330] in
  f0_clean <> []
  /\ Forall (fun f => 0 < f) f0_clean
  /\ 0 < 220
  /\ (extract_swara_distribution (map (Rmult 2) f0_clean) 220 =
        extract_swara_distribution f0_clean 220
      /\ exists d, extract_swara_distribution f0_clean 220 = Return (Arr d)).
Proof.
  cbv zeta.
  assert (H1 : [220; 330] <> []) by discriminate.
  assert (H2 : Forall (fun f => 0 < f) [220; 330]) by (repeat constructor; lra).
  assert (H3 : 0 < 220) by lra.
  split; [exact H1 |]. split; [exact H2 |]. split; [exact H3 |].
  exact (octave_invariance [220; 330] 220 H1 H2 H3).
Defined.

(** C6.  On non-empty positive data and a positive tonic the distribution
    has exactly 12 entries and they sum to 1, hence to 1 within 1e-9. *)
Theorem distribution_sums_to_one (f0_clean : list R) (tonic_hz : R) :
  f0_clean <> [] ->
  Forall (fun f => 0 < f) f0_clean ->
  0 < tonic_hz ->
  exists d,
    extract_swara_distribution f0_clean tonic_hz = Return (Arr d)
    /\ List.length d = 12%nat
    /\ sum d = 1
    /\ Rabs (sum d - 1) <= 1 / 1000000000.
Proof.
  intros Hne _ _.
  destruct (extract_swara_distribution_value f0_clean tonic_hz Hne)
    as (d & E & Hl & Hs).
  exists d. repeat split; try assumption.
  rewrite Hs. replace (1 - 1) with 0 by ring. rewrite Rabs_R0. lra.
Qed.

(** The bound of C6 does not depend on exact division: if each of the
    quotients is rounded with relative error at most [u], their sum stays
    within [u] of 1 (for float64, [u] is 2^-53). *)
Lemma rounded_quotients_sum (rnd : R -> R) (u : R) (h : list Z) :
  (forall x, Rabs (rnd x - x) <= u * Rabs x) ->
  Forall (fun c => 0 <= c)%Z h ->
  (0 < isum h)%Z ->
  Rabs (sum (map (fun c => rnd (IZR c / IZR (isum h))) h) - 1) <= u.
Proof.
  intros Hrnd Hpos Hn.
  set (n := IZR (isum h)).
  assert (Hn' : 0 < n) by (unfold n; now apply IZR_lt).
  assert (G : forall l, Forall (fun c => 0 <= c)%Z l ->
            Rabs (sum (map (fun c => rnd (IZR c / n)) l)
                  - sum (map (fun c => IZR c / n) l))
            <= u * sum (map (fun c => IZR c / n) l)).
  { induction 1 as [| c l Hc _ IH]; unfold sum in *; cbn [map fold_right].
    - replace (0 - 0) with 0 by ring. rewrite Rabs_R0. lra.
    - assert (Hq : 0 <= IZR c / n).
      { apply Rmult_le_pos; [now apply IZR_le |].
        apply Rlt_le. now apply Rinv_0_lt_compat. }
      pose proof (Hrnd (IZR c / n)) as Hr.
      rewrite (Rabs_pos_eq _ Hq) in Hr.
      eapply Rle_trans.
      + match goal with
        | |- Rabs (?a + ?b - (?c + ?d)) <= _ =>
            replace (a + b - (c + d)) with ((a - c) + (b - d)) by ring
        end.
        apply Rabs_triang.
      + lra. }
  specialize (G h Hpos).
  replace (sum (map (fun c => IZR c / n) h)) with 1 in G.
  - lra.
  - rewrite <- (map_map IZR (fun x => x / n)).
    rewrite sum_map_div, sum_map_IZR. fold n. field. lra.
Qed.

Lemma distribution_sums_to_one_example :
  let f0_clean := [220; 330] in
  f0_clean <> []
  /\ Forall (fun f => 0 < f) f0_clean
  /\ 0 < 220
  /\ exists d,
       extract_swara_distribution f0_clean 220 = Return (Arr d)
       /\ List.length d = 12%nat
       /\ sum d = 1
       /\ Rabs (sum d - 1) <= 1 / 1000000000.
Proof.
  cbv zeta.
  assert (H1 : [220; 330] <> []) by discriminate.
  assert (H2 : Forall (fun f => 0 < f) [220; 330]) by (repeat constructor; lra).
  assert (H3 : 0 < 220) by lra.
  split; [exact H1 |]. split; [exact H2 |]. split; [exact H3 |].
  exact (distribution_sums_to_one [220; 330] 220 H1 H2 H3).
Defined.

(** The tonic itself and its octave fall in pitch class 0. *)
Lemma tonic_and_octave_in_class_0 :
  extract_swara_distribution [220; 440] 220 =
    Return (Arr [2 / 2; 0 / 2; 0 / 2; 0 / 2; 0 / 2; 0 / 2;
                 0 / 2; 0 / 2; 0 / 2; 0 / 2; 0 / 2; 0 / 2]).
Proof.
  assert (S1 : semitone 220 220 = 0%Z).
  { unfold semitone, log2.
    replace (220 / 220) with 1 by lra. rewrite ln_1.
    replace (1200 * (0 / ln 2)) with 0 by (unfold Rdiv; ring).
    unfold remainder. replace (0 / 1200) with (IZR 0) by lra.
    rewrite ZfloorZ. replace ((0 - 1200 * 0) / 100) with (IZR 0) by lra.
    unfold round. rewrite ZfloorZ.
    destruct (Rlt_dec (0 - 0) (1 / 2)) as [_ | N]; [| lra].
    now rewrite astype_int_IZR. }
  assert (S2 : semitone 220 440 = 0%Z).
  { replace 440 with (2 * 220) by lra.
    now rewrite semitone_double by lra. }
  unfold extract_swara_distribution. cbn [map]. rewrite S1, S2.
  cbn [bincount existsb Z.ltb Z.compare orb]. cbv [imax Z.max Z.compare].
  change (Nat.max 12 (Z.to_nat (0 + 1))) with 12%nat.
  cbn [seq map count_occ]. cbv -[IZR Req_dec_T Rdiv divide].
  unfold divide. destruct (Req_dec_T 2 0) as [E | _]; [lra |].
  reflexivity.
Qed.

End DetectorFacts.

(** * Properties of the ranking *)

Module RankingFacts.

Import Numpy NumpyFacts Detector.
Open Scope R_scope.

(** ** Strongly sorted lists *)

Lemma SSorted_weaken {A : Type} (P Q : A -> A -> Prop) (l : list A) :
  (forall a b, In a l -> In b l -> P a b -> Q a b) ->
  StronglySorted P l -> StronglySorted Q l.
Proof.
  intros H S. induction S as [| a l S IH F]; constructor.
  - apply IH. intros x y Hx Hy. apply H; now right.
  - rewrite Forall_forall in *. intros y Hy.
    apply H; [now left | now right | now apply F].
Qed.

Lemma SSorted_snoc {A : Type} (P : A -> A -> Prop) (l : list A) (x : A) :
  StronglySorted P l -> Forall (fun y => P y x) l ->
  StronglySorted P (l ++ [x]).
Proof.
  intros S F. induction S as [| a l S IH Fa]; cbn.
  - repeat constructor.
  - inversion F; subst. constructor; [now apply IH |].
    apply Forall_app. split; [assumption | now constructor].
Qed.

Lemma SSorted_app_r {A : Type} (P : A -> A -> Prop) (l1 l2 : list A) :
  StronglySorted P (l1 ++ l2) -> StronglySorted P l2.
Proof.
  induction l1 as [| a l1 IH]; cbn; intros S; [exact S |].
  inversion S; subst. now apply IH.
Qed.

Lemma SSorted_rev {A : Type} (P : A -> A -> Prop) (l : list A) :
  StronglySorted P l -> StronglySorted (fun a b => P b a) (rev l).
Proof.
  induction 1 as [| a l S IH F]; cbn; [constructor |].
  apply SSorted_snoc; [assumption |].
  apply Forall_rev. exact F.
Qed.

(** ** The stable sort *)

Section StableSort.

Context {A : Type}.
Variable lt : A -> A -> bool.
Variable rk : A -> R.
Variable ix : A -> Z.

Lemma agrees_incl (l l' : list A) :
  incl l' l -> agrees lt rk l -> agrees lt rk l'.
Proof. intros Hi Ha a b Hx Hy. apply Ha; now apply Hi. Qed.

Lemma insert_stable_perm (x : A) (l : list A) :
  Permutation (insert_stable lt x l) (x :: l).
Proof.
  induction l as [| y t IH]; cbn; [reflexivity |].
  destruct (lt x y); [reflexivity |].
  rewrite IH. apply perm_swap.
Qed.

Lemma insert_stable_sorted (x : A) (l : list A) :
  agrees lt rk (x :: l) ->
  StronglySorted (sorted_before rk ix) l ->
  Forall (fun y => (ix y < ix x)%Z) l ->
  StronglySorted (sorted_before rk ix) (insert_stable lt x l).
Proof.
  intros Ha S. revert Ha.
  induction S as [| y t S IH F]; intros Ha Hix; cbn.
  - repeat constructor.
  - inversion Hix as [| ? ? Hy Ht]; subst.
    assert (Hxy : lt x y = true <-> rk x < rk y)
      by (apply Ha; [now left | now right; left]).
    destruct (lt x y) eqn:E.
    + assert (rk x < rk y) by now apply Hxy.
      constructor; [now constructor |].
      constructor; [now left |].
      rewrite Forall_forall in *. intros z Hz.
      left. destruct (F z Hz) as [? | [? _]]; lra.
    + assert (~ rk x < rk y) by (intros H; apply Hxy in H; discriminate).
      constructor.
      * apply IH; [| assumption].
        eapply agrees_incl; [| exact Ha].
        intros z [-> | Hz]; [now left | now right; right].
      * rewrite Forall_forall in *. intros z Hz.
        apply (Permutation_in _ (insert_stable_perm x t)) in Hz.
        destruct Hz as [<- | Hz]; [| now apply F].
        unfold sorted_before.
        destruct (Rle_lt_or_eq_dec (rk y) (rk x)) as [? | ?];
          [lra | now left | now right].
Qed.

Lemma stable_sort_from (l acc : list A) :
  agrees lt rk (acc ++ l) ->
  StronglySorted (sorted_before rk ix) acc ->
  StronglySorted (fun a b => (ix a < ix b)%Z) l ->
  (forall a b, In a acc -> In b l -> (ix a < ix b)%Z) ->
  let r := fold_left (fun acc x => insert_stable lt x acc) l acc in
  StronglySorted (sorted_before rk ix) r /\ Permutation r (acc ++ l).
Proof.
  revert acc. induction l as [| x t IH]; intros acc Ha Sacc Sl Hlt; cbn.
  - rewrite app_nil_r. now split.
  - inversion Sl as [| ? ? St Fx]; subst.
    pose proof (insert_stable_perm x acc) as Hp.
    destruct (IH (insert_stable lt x acc)) as [S P].
    + eapply agrees_incl; [| exact Ha].
      intros z Hz. apply in_app_or in Hz. apply in_or_app.
      destruct Hz as [Hz | Hz]; [| now right; right].
      apply (Permutation_in _ Hp) in Hz.
      destruct Hz as [<- | Hz]; [now right; left | now left].
    + apply insert_stable_sorted; [| assumption |].
      * eapply agrees_incl; [| exact Ha].
        intros z [<- | Hz]; apply in_or_app; [now right; left | now left].
      * apply Forall_forall. intros y Hy. apply Hlt; [assumption | now left].
    + assumption.
    + intros a b Hin Hb. apply (Permutation_in _ Hp) in Hin.
      destruct Hin as [<- | Hin].
      * rewrite Forall_forall in Fx. now apply Fx.
      * apply Hlt; [assumption | now right].
    + split; [exact S |]. rewrite P, Hp. apply Permutation_middle.
Qed.

Lemma stable_sort_spec (l : list A) :
  agrees lt rk l ->
  StronglySorted (fun a b => (ix a < ix b)%Z) l ->
  StronglySorted (sorted_before rk ix) (stable_sort lt l)
  /\ Permutation (stable_sort lt l) l.
Proof.
  intros Ha S. unfold stable_sort.
  apply (stable_sort_from l []).
  - exact Ha.
  - constructor.
  - exact S.
  - intros a b [].
Qed.

End StableSort.

(** A reversed sort is descending by rank, ties by ascending index. *)
Lemma sorted_reverse_spec {A K : Type} (key : A -> K) (klt : K -> K -> bool)
    (rk : A -> R) (ix : A -> Z) (l : list A) :
  agrees (fun a b => klt (key a) (key b)) rk l ->
  StronglySorted (fun a b => (ix a < ix b)%Z) l ->
  StronglySorted (fun a b => rk b < rk a \/ (rk a = rk b /\ (ix a < ix b)%Z))
                 (sorted key klt true l)
  /\ Permutation (sorted key klt true l) l.
Proof.
  intros Ha S. unfold sorted.
  destruct (stable_sort_spec (fun a b => klt (key a) (key b)) rk
              (fun a => (- ix a)%Z) (rev l)) as [S' P'].
  - eapply agrees_incl; [| exact Ha]. intros z Hz. now apply in_rev.
  - apply SSorted_rev in S.
    eapply SSorted_weaken; [| exact S]. cbn. intros; lia.
  - split.
    + apply SSorted_rev in S'.
      eapply SSorted_weaken; [| exact S']. cbn.
      unfold sorted_before. intros a b _ _ [H | [H1 H2]];
        [now left | right; split; [lra | lia]].
    + rewrite <- Permutation_rev, P'. symmetry. apply Permutation_rev.
Qed.

(** ** Reference distributions *)

Lemma update_length (v : list R) (j : nat) (x : R) :
  List.length (update v j x) = List.length v.
Proof.
  revert j. induction v as [| a v IH]; intros [| j]; cbn; auto.
Qed.

Lemma update_nth (v : list R) (j : nat) (x : R) (k : nat) :
  (j < List.length v)%nat ->
  nth k (update v j x) 0 = if (k =? j)%nat then x else nth k v 0.
Proof.
  revert j k. induction v as [| a v IH]; intros j k Hj; cbn in Hj; [lia |].
  destruct j as [| j], k as [| k]; cbn; try reflexivity.
  apply IH. lia.
Qed.

Lemma setitem_in_range (v : list R) (i : Z) (x : R) :
  (0 <= i < Z.of_nat (List.length v))%Z ->
  setitem v i x = Return (update v (Z.to_nat i) x).
Proof.
  intros H. unfold setitem.
  replace (i <? 0)%Z with false by (symmetry; apply Z.ltb_ge; lia).
  replace (i <? 0)%Z with false by (symmetry; apply Z.ltb_ge; lia).
  replace (Z.of_nat (List.length v) <=? i)%Z with false
    by (symmetry; apply Z.leb_gt; lia).
  reflexivity.
Qed.

(** Marking puts 1 at the listed positions and leaves the others. *)
Lemma mark_spec (intervals : list Z) (v : list R) :
  Forall (fun i => 0 <= i < Z.of_nat (List.length v))%Z intervals ->
  exists v',
    mark v intervals = Return v'
    /\ List.length v' = List.length v
    /\ forall k, nth k v' 0 =
         if existsb (Z.eqb (Z.of_nat k)) intervals then 1 else nth k v 0.
Proof.
  revert v. induction intervals as [| i rest IH]; intros v H; cbn.
  - exists v. auto.
  - inversion H as [| ? ? Hi Hrest]; subst.
    rewrite (setitem_in_range v i 1 Hi). cbn [bind].
    destruct (IH (update v (Z.to_nat i) 1)) as (v' & E & L & N).
    { now rewrite update_length. }
    exists v'. split; [exact E |]. split; [now rewrite L, update_length |].
    intros k. rewrite N, update_nth by lia.
    destruct (Z.eqb_spec (Z.of_nat k) i) as [Ek | Ek]; cbn [orb].
    + replace (k =? Z.to_nat i)%nat with true
        by (symmetry; apply Nat.eqb_eq; lia).
      now destruct (existsb _ rest).
    + replace (k =? Z.to_nat i)%nat with false
        by (symmetry; apply Nat.eqb_neq; lia).
      reflexivity.
Qed.

Lemma existsb_eqb_In (k : Z) (l : list Z) :
  existsb (Z.eqb k) l = true <-> In k l.
Proof.
  rewrite existsb_exists. split.
  - intros (x & Hx & E). apply Z.eqb_eq in E. now subst.
  - intros H. exists k. split; [assumption | apply Z.eqb_refl].
Qed.

Lemma sum_nonneg (l : list R) : Forall (fun x => 0 <= x) l -> 0 <= sum l.
Proof.
  unfold sum. induction 1 as [| x l Hx _ IH]; cbn; lra.
Qed.

Lemma sum_ge_nth (l : list R) (k : nat) :
  Forall (fun x => 0 <= x) l -> nth k l 0 <= sum l.
Proof.
  intros H. revert k. induction H as [| x l Hx Hl IH]; intros [| k]; cbn;
    try (unfold sum; cbn; lra).
  - pose proof (sum_nonneg l Hl). unfold sum in *. lra.
  - specialize (IH k). unfold sum in *. lra.
Qed.

Lemma nth_map_0 (f : R -> R) (l : list R) (k : nat) :
  (k < List.length l)%nat -> nth k (map f l) 0 = f (nth k l 0).
Proof.
  intros H. rewrite (nth_indep _ 0 (f 0)) by now rewrite length_map.
  apply map_nth.
Qed.

(** A usable profile yields an array of 12 numbers: a common positive
    weight on the listed classes, 0 elsewhere. *)
Lemma ideal_profile_spec (intervals : list Z) :
  usable_profile intervals ->
  exists (x : list R) (w : R),
    ideal_profile intervals = Return (Arr x)
    /\ List.length x = 12%nat
    /\ 0 < w
    /\ forall k, (k < 12)%nat ->
         nth k x 0 = if existsb (Z.eqb (Z.of_nat k)) intervals then w else 0.
Proof.
  intros (Hne & Hr & _). unfold ideal_profile.
  destruct (mark_spec intervals (repeat 0 12)) as (v & E & L & N).
  { now rewrite repeat_length. }
  rewrite E. cbn [bind]. rewrite repeat_length in L.
  assert (Hv : forall k, nth k v 0 =
                 if existsb (Z.eqb (Z.of_nat k)) intervals then 1 else 0).
  { intros k. rewrite N. now rewrite nth_repeat. }
  assert (Hpos : Forall (fun a => 0 <= a) v).
  { apply Forall_nth. intros k d Hk. rewrite (nth_indep _ d 0 Hk), Hv.
    destruct (existsb _ _); lra. }
  assert (Hs : 1 <= sum v).
  { destruct intervals as [| i rest]; [congruence |].
    inversion Hr as [| ? ? Hi _]; subst.
    pose proof (sum_ge_nth v (Z.to_nat i) Hpos) as Hge.
    rewrite Hv in Hge. rewrite Z2Nat.id in Hge by lia.
    cbn [existsb] in Hge. rewrite Z.eqb_refl in Hge. exact Hge. }
  unfold divide. destruct (Req_dec_T (sum v) 0) as [E0 | _]; [lra |].
  exists (map (fun a => a / sum v) v), (1 / sum v).
  split; [reflexivity |]. split; [now rewrite length_map |].
  split; [apply Rdiv_lt_0_compat; lra |].
  intros k Hk. rewrite nth_map_0 by lia. rewrite Hv.
  destruct (existsb _ _); [reflexivity | unfold Rdiv; ring].
Qed.

(** ** Correlation *)

(** Every term of the Lagrange sum is below the Cauchy-Schwarz gap. *)
Lemma dot_gap (u v : list R) (a b : R) :
  List.length u = List.length v ->
  forall k,
    (nth k u 0 * b - nth k v 0 * a) * (nth k u 0 * b - nth k v 0 * a)
    <= b * b * dot u u - 2 * a * b * dot u v + a * a * dot v v.
Proof.
  revert v. induction u as [| p u IH]; intros [| q v] L k;
    try discriminate.
  - destruct k; cbn; nra.
  - injection L as L. cbn [dot].
    pose proof (IH v L (List.length u)) as H0.
    rewrite (nth_overflow u), (nth_overflow v) in H0 by lia.
    pose proof (Rle_0_sqr (p * b - q * a)) as Hsq. unfold Rsqr in Hsq.
    destruct k as [| k]; cbn [nth].
    + lra.
    + specialize (IH v L k).
      set (t := nth k u 0 * b - nth k v 0 * a) in *. clearbody t. lra.
Qed.

Lemma dot_self_ge (u : list R) (k : nat) :
  nth k u 0 * nth k u 0 <= dot u u.
Proof.
  pose proof (dot_gap u u 0 1 eq_refl k). nra.
Qed.

Lemma dot_self_nonneg (u : list R) : 0 <= dot u u.
Proof. pose proof (dot_self_ge u 0). nra. Qed.

Lemma cauchy_schwarz (u v : list R) :
  List.length u = List.length v ->
  dot u v * dot u v <= dot u u * dot v v.
Proof.
  intros L.
  pose proof (dot_gap u v (dot u v) (dot v v) L (List.length u)) as H.
  rewrite (nth_overflow u), (nth_overflow v) in H by lia.
  pose proof (dot_self_nonneg v) as Hv. pose proof (dot_self_nonneg u) as Hu.
  destruct (Req_dec_T (dot v v) 0) as [E | E].
  - pose proof (dot_gap u v (dot u u + 1) (dot u v) L (List.length u)) as H'.
    rewrite (nth_overflow u), (nth_overflow v) in H' by lia.
    rewrite E in *.
    pose proof (Rle_0_sqr (dot u v)) as Hs. unfold Rsqr in Hs.
    assert (0 <= dot u v * dot u v * dot u u) by (now apply Rmult_le_pos).
    lra.
  - assert (Hp : 0 < dot v v) by lra.
    assert (Hm : 0 <= dot v v * (dot u u * dot v v - dot u v * dot u v))
      by lra.
    destruct (Rle_dec (dot u v * dot u v) (dot u u * dot v v)) as [? | Hn];
      [assumption | exfalso].
    assert (dot v v * (dot u u * dot v v - dot u v * dot u v) < 0); [| lra].
    rewrite <- (Rmult_0_r (dot v v)). apply Rmult_lt_compat_l; lra.
Qed.

(** Equality in Cauchy-Schwarz makes the vectors proportional. *)
Lemma cauchy_schwarz_equal (u v : list R) :
  List.length u = List.length v ->
  dot u v * dot u v = dot u u * dot v v ->
  forall k, nth k u 0 * dot v v = nth k v 0 * dot u v.
Proof.
  intros L E k.
  pose proof (dot_gap u v (dot u v) (dot v v) L k) as H.
  replace (dot v v * dot v v * dot u u
           - 2 * dot u v * dot v v * dot u v
           + dot u v * dot u v * dot v v)
    with (dot v v * (dot u u * dot v v - dot u v * dot u v)) in H by ring.
  rewrite E in H.
  replace (dot u u * dot v v - dot u u * dot v v) with 0 in H by ring.
  rewrite Rmult_0_r in H.
  set (t := nth k u 0 * dot v v - nth k v 0 * dot u v) in *.
  pose proof (Rle_0_sqr t) as Hs. unfold Rsqr in Hs.
  assert (Z0 : t * t = 0) by lra.
  apply Rmult_integral in Z0. unfold t in Z0. lra.
Qed.

(** A vector with two different entries has a positive variance sum. *)
Lemma centred_dot_pos (x : list R) (m : R) (i j : nat) :
  (i < List.length x)%nat -> (j < List.length x)%nat ->
  nth i x 0 <> nth j x 0 ->
  0 < dot (map (fun a => a - m) x) (map (fun a => a - m) x).
Proof.
  intros Hi Hj Hne.
  set (u := map (fun a => a - m) x).
  pose proof (dot_self_ge u i) as Gi. pose proof (dot_self_ge u j) as Gj.
  unfold u in Gi, Gj. rewrite nth_map_0 in Gi, Gj by assumption.
  fold u in Gi, Gj.
  destruct (Req_dec_T (nth i x 0) m) as [Ei | Ei].
  - assert (nth j x 0 - m <> 0) by lra. nra.
  - assert (nth i x 0 - m <> 0) by lra. nra.
Qed.

Lemma clip_lt_1 (q : R) : q < 1 -> clip q (-1) 1 < 1.
Proof.
  intros H. unfold clip, Rmin, Rmax.
  destruct (Rle_dec q (-1)); destruct (Rle_dec _ 1); lra.
Qed.

Lemma clip_1 : clip 1 (-1) 1 = 1.
Proof.
  unfold clip, Rmin, Rmax.
  destruct (Rle_dec 1 (-1)); destruct (Rle_dec _ 1); lra.
Qed.

(** The quotient of the code, in terms of the three sums. *)
Lemma pearson_ge_1 (uu uv vv f : R) :
  0 < f -> 0 < uu -> 0 < vv ->
  uv * uv <= uu * vv ->
  1 <= uv / f / sqrt (uu / f) / sqrt (vv / f) ->
  0 < uv /\ uv * uv = uu * vv.
Proof.
  intros Hf Hu Hv CS Hq.
  assert (Hu' : 0 < uu / f) by (apply Rdiv_lt_0_compat; assumption).
  assert (Hv' : 0 < vv / f) by (apply Rdiv_lt_0_compat; assumption).
  pose proof (sqrt_lt_R0 _ Hu') as S0. pose proof (sqrt_lt_R0 _ Hv') as S1.
  pose proof (sqrt_sqrt (uu / f) (Rlt_le _ _ Hu')) as Q0.
  pose proof (sqrt_sqrt (vv / f) (Rlt_le _ _ Hv')) as Q1.
  set (s0 := sqrt (uu / f)) in *. set (s1 := sqrt (vv / f)) in *.
  assert (Hge : s0 * s1 <= uv / f).
  { replace (uv / f) with (uv / f / s0 / s1 * (s0 * s1)) by (field; lra).
    assert (0 < s0 * s1) by nra. nra. }
  assert (Hp : 0 < s0 * s1) by nra.
  assert (Hsq : (s0 * s1) * (s0 * s1) = uu * vv / (f * f)).
  { replace (s0 * s1 * (s0 * s1)) with ((s0 * s0) * (s1 * s1)) by ring.
    rewrite Q0, Q1. field. lra. }
  assert (Huvf : uv = uv / f * f) by (field; lra).
  assert (Hpos : 0 < uv / f) by lra.
  split; [nra |].
  assert (Hle : uu * vv / (f * f) <= (uv / f) * (uv / f)) by nra.
  assert (Hff : (uv / f) * (uv / f) = uv * uv / (f * f)) by (field; lra).
  assert (0 < f * f) by nra.
  assert (uu * vv <= uv * uv).
  { rewrite Hff in Hle. unfold Rdiv in Hle.
    apply Rmult_le_reg_r in Hle; [exact Hle |].
    now apply Rinv_0_lt_compat. }
  lra.
Qed.

Lemma pearson_self (uu f : R) :
  0 < f -> 0 < uu -> uu / f / sqrt (uu / f) / sqrt (uu / f) = 1.
Proof.
  intros Hf Hu.
  assert (Hu' : 0 < uu / f) by (apply Rdiv_lt_0_compat; assumption).
  pose proof (sqrt_lt_R0 _ Hu') as S0.
  pose proof (sqrt_sqrt (uu / f) (Rlt_le _ _ Hu')) as Q0.
  set (s0 := sqrt (uu / f)) in *.
  rewrite <- Q0. field. lra.
Qed.

Lemma fact_12 : INR 12 - 1 = 11.
Proof. rewrite INR_IZR_INZ. cbn. lra. Qed.

(** The score of a 12-bin array against a non-constant 12-bin array: NaN
    exactly when the first array has no spread. *)
Lemma corrcoef01_value (d y : list R) :
  List.length d = 12%nat -> List.length y = 12%nat ->
  0 < dot (map (fun a => a - mean y) y) (map (fun a => a - mean y) y) ->
  corrcoef01 (Arr d) (Arr y) =
    Return
      (let X0 := map (fun a => a - mean d) d in
       let X1 := map (fun a => a - mean y) y in
       if Req_dec_T (sqrt (dot X0 X0 / 11)) 0 then None
       else Some (clip (dot X0 X1 / 11 / sqrt (dot X0 X0 / 11)
                          / sqrt (dot X1 X1 / 11)) (-1) 1)).
Proof.
  intros Ld Ly Hy. unfold corrcoef01. rewrite Ld, Ly. cbn [Nat.eqb].
  rewrite fact_12. cbv zeta.
  destruct (Rle_dec 11 0) as [? | _]; [lra |].
  destruct (Req_dec_T (sqrt (dot _ _ / 11)) 0) as [? | _]; [reflexivity |].
  destruct (Req_dec_T (sqrt (dot _ _ / 11)) 0) as [E | _]; [| reflexivity].
  exfalso.
  assert (H : 0 < sqrt (dot (map (fun a => a - mean y) y)
                            (map (fun a => a - mean y) y) / 11)).
  { apply sqrt_lt_R0. apply Rdiv_lt_0_compat; lra. }
  lra.
Qed.

(** A usable profile has a marked and an unmarked class, so its reference
    distribution is not constant. *)
Lemma usable_marked (intervals : list Z) :
  usable_profile intervals ->
  exists i j, (i < 12)%nat /\ (j < 12)%nat
    /\ existsb (Z.eqb (Z.of_nat i)) intervals = true
    /\ existsb (Z.eqb (Z.of_nat j)) intervals = false.
Proof.
  intros (Hne & Hr & k & Hk & Hnot).
  destruct intervals as [| i rest]; [congruence |].
  inversion Hr as [| ? ? Hi _]; subst.
  exists (Z.to_nat i), (Z.to_nat k).
  split; [lia |]. split; [lia |]. rewrite !Z2Nat.id by lia. split.
  - cbn. now rewrite Z.eqb_refl.
  - destruct (existsb _ _) eqn:E; [| reflexivity].
    apply existsb_eqb_In in E. contradiction.
Qed.

Lemma reference_spread (intervals : list Z) (x : list R) (w m : R) :
  usable_profile intervals ->
  List.length x = 12%nat -> 0 < w ->
  (forall k, (k < 12)%nat ->
     nth k x 0 = if existsb (Z.eqb (Z.of_nat k)) intervals then w else 0) ->
  0 < dot (map (fun a => a - m) x) (map (fun a => a - m) x).
Proof.
  intros U L Hw Hx.
  destruct (usable_marked intervals U) as (i & j & Hi & Hj & Ei & Ej).
  apply (centred_dot_pos x m i j); try lia.
  rewrite (Hx i Hi), (Hx j Hj), Ei, Ej. lra.
Qed.

Lemma positive_factor (a b c : R) : 0 < a -> 0 < c -> a = b * c -> 0 < b.
Proof.
  intros Ha Hc E. destruct (Rlt_dec 0 b) as [? | Hn]; [assumption | exfalso].
  assert (b * c <= 0 * c) by (apply Rmult_le_compat_r; lra).
  lra.
Qed.

(** Reference distributions of profiles with different class sets
    correlate strictly below 1. *)
Lemma different_classes_below_1 (ia ib : list Z) (x y : list R) (wa wb : R) :
  usable_profile ia -> usable_profile ib ->
  List.length x = 12%nat -> List.length y = 12%nat ->
  0 < wa -> 0 < wb ->
  (forall k, (k < 12)%nat ->
     nth k x 0 = if existsb (Z.eqb (Z.of_nat k)) ia then wa else 0) ->
  (forall k, (k < 12)%nat ->
     nth k y 0 = if existsb (Z.eqb (Z.of_nat k)) ib then wb else 0) ->
  ~ same_classes ib ia ->
  let X0 := map (fun a => a - mean x) x in
  let X1 := map (fun a => a - mean y) y in
  dot X0 X1 / 11 / sqrt (dot X0 X0 / 11) / sqrt (dot X1 X1 / 11) < 1.
Proof.
  intros Ua Ub Lx Ly Hwa Hwb Hx Hy Hdiff X0 X1.
  pose proof (reference_spread ia x wa (mean x) Ua Lx Hwa Hx) as Vx.
  pose proof (reference_spread ib y wb (mean y) Ub Ly Hwb Hy) as Vy.
  fold X0 in Vx. fold X1 in Vy.
  assert (L01 : List.length X0 = List.length X1)
    by (unfold X0, X1; rewrite !length_map; congruence).
  destruct (Rlt_dec (dot X0 X1 / 11 / sqrt (dot X0 X0 / 11)
                       / sqrt (dot X1 X1 / 11)) 1) as [? | Hge];
    [assumption | exfalso].
  apply Rnot_lt_le in Hge.
  destruct (pearson_ge_1 (dot X0 X0) (dot X0 X1) (dot X1 X1) 11)
    as [Hpos Heq]; try lra.
  { now apply cauchy_schwarz. }
  pose proof (cauchy_schwarz_equal X0 X1 L01 Heq) as Hprop.
  (* differences of entries are proportional, with positive factors *)
  assert (Hd : forall k l, (k < 12)%nat -> (l < 12)%nat ->
             (nth k x 0 - nth l x 0) * dot X1 X1
             = (nth k y 0 - nth l y 0) * dot X0 X1).
  { intros k l Hk Hl.
    pose proof (Hprop k) as Pk. pose proof (Hprop l) as Pl.
    unfold X0, X1 in Pk, Pl.
    rewrite !nth_map_0 in Pk, Pl by lia.
    fold X0 X1 in Pk, Pl. lra. }
  destruct (usable_marked ia Ua) as (i & j & Hi & Hj & Ei & Ej).
  assert (Hsame : forall k, (k < 12)%nat ->
             existsb (Z.eqb (Z.of_nat k)) ib
             = existsb (Z.eqb (Z.of_nat k)) ia).
  { intros k Hk.
    destruct (existsb (Z.eqb (Z.of_nat k)) ia) eqn:Ek.
    - (* k is marked in ia: compare with the unmarked j *)
      pose proof (Hd k j Hk Hj) as D.
      rewrite (Hx k Hk), (Hx j Hj), Ek, Ej in D.
      rewrite (Hy k Hk), (Hy j Hj) in D.
      assert (P : 0 < (wa - 0) * dot X1 X1)
        by (apply Rmult_lt_0_compat; lra).
      rewrite D in P.
      destruct (existsb (Z.eqb (Z.of_nat k)) ib); [reflexivity | exfalso].
      pose proof (positive_factor _ _ _ P Hpos eq_refl) as Q.
      destruct (existsb (Z.eqb (Z.of_nat j)) ib); lra.
    - (* k is unmarked in ia: compare with the marked i *)
      pose proof (Hd i k Hi Hk) as D.
      rewrite (Hx k Hk), (Hx i Hi), Ek, Ei in D.
      rewrite (Hy k Hk), (Hy i Hi) in D.
      assert (P : 0 < (wa - 0) * dot X1 X1)
        by (apply Rmult_lt_0_compat; lra).
      rewrite D in P.
      destruct (existsb (Z.eqb (Z.of_nat k)) ib); [exfalso | reflexivity].
      pose proof (positive_factor _ _ _ P Hpos eq_refl) as Q.
      destruct (existsb (Z.eqb (Z.of_nat i)) ib); lra. }
  apply Hdiff. intros z.
  destruct Ua as (_ & Ra & _). destruct Ub as (_ & Rb & _).
  rewrite Forall_forall in Ra, Rb.
  split; intros Hz.
  - pose proof (Rb z Hz) as Hr.
    apply existsb_eqb_In. rewrite <- (Z2Nat.id z) by lia.
    rewrite <- Hsame by lia. rewrite Z2Nat.id by lia.
    now apply existsb_eqb_In.
  - pose proof (Ra z Hz) as Hr.
    apply existsb_eqb_In. rewrite <- (Z2Nat.id z) by lia.
    rewrite Hsame by lia. rewrite Z2Nat.id by lia.
    now apply existsb_eqb_In.
Qed.

(** ** The score table *)

Lemma dict_set_fresh {V : Type} (d : list (string * V)) (k : string) (v : V) :
  ~ In k (map fst d) -> dict_set d k v = (d ++ [(k, v)])%list.
Proof.
  induction d as [| [k' v'] d IH]; cbn; intros H; [reflexivity |].
  destruct (String.eqb_spec k' k) as [E | _]; [tauto |].
  rewrite IH; [reflexivity | tauto].
Qed.

(** With distinct names and usable profiles the loop never raises and
    leaves one entry per profile, in the order of the store. *)
Lemma score_all_spec (patterns : list (string * raga_info)) (d : list R) :
  List.length d = 12%nat ->
  Forall (fun p => usable_profile (key_intervals (snd p))) patterns ->
  forall acc,
    NoDup (map fst acc ++ map fst patterns) ->
    exists scs,
      score_all patterns (Arr d) acc = Return (acc ++ scs)%list
      /\ Forall2 (fun p e =>
                    fst e = fst p
                    /\ exists y,
                         ideal_profile (key_intervals (snd p)) = Return (Arr y)
                         /\ corrcoef01 (Arr d) (Arr y) = Return (snd e))
                 patterns scs.
Proof.
  intros Ld. induction 1 as [| [n info] rest Hu _ IH]; intros acc ND.
  - exists []. cbn. rewrite app_nil_r. split; [reflexivity | constructor].
  - cbn [fst snd] in *.
    destruct (ideal_profile_spec _ Hu) as (y & w & Ey & Ly & Hw & Hy).
    pose proof (reference_spread _ y w (mean y) Hu Ly Hw Hy) as Vy.
    assert (exists sc, corrcoef01 (Arr d) (Arr y) = Return sc) as [sc Ec]
      by (eexists; now apply corrcoef01_value).
    cbn [score_all]. rewrite Ey. cbn [bind]. rewrite Ec. cbn [bind].
    cbn [map fst] in ND.
    rewrite dict_set_fresh.
    2:{ apply NoDup_remove_2 in ND. intros Hin. apply ND.
        apply in_or_app. now left. }
    destruct (IH (acc ++ [(n, sc)])%list) as (scs & Es & F).
    { rewrite map_app. cbn. now rewrite <- app_assoc. }
    exists ((n, sc) :: scs). split.
    + rewrite Es. now rewrite <- app_assoc.
    + constructor; [| exact F]. split; [reflexivity |]. now exists y.
Qed.

Lemma index_of_nonneg (names : list string) (n : string) :
  (0 <= index_of names n)%Z.
Proof.
  induction names as [| m t IH]; cbn [index_of]; [lia |].
  destruct (String.eqb m n); lia.
Qed.

Lemma index_of_sorted (names : list string) :
  NoDup names ->
  StronglySorted (fun a b => (index_of names a < index_of names b)%Z) names.
Proof.
  induction 1 as [| m t Hm ND IH]; [constructor |].
  constructor.
  - eapply SSorted_weaken; [| exact IH]. cbn [index_of].
    intros a b Ha Hb Hlt.
    destruct (String.eqb_spec m a) as [-> | _]; [contradiction |].
    destruct (String.eqb_spec m b) as [-> | _]; [contradiction |]. lia.
  - apply Forall_forall. intros b Hb. cbn [index_of].
    rewrite String.eqb_refl.
    destruct (String.eqb_spec m b) as [-> | _]; [contradiction |].
    pose proof (index_of_nonneg t b). lia.
Qed.

Lemma SSorted_map {A B : Type} (f : A -> B) (P : B -> B -> Prop) (l : list A) :
  StronglySorted P (map f l) ->
  StronglySorted (fun a b => P (f a) (f b)) l.
Proof.
  induction l as [| a l IH]; cbn; intros S; [constructor |].
  inversion S as [| ? ? S' F]; subst. constructor; [now apply IH |].
  now rewrite Forall_map in F.
Qed.

Lemma Forall2_names {A B : Type} (P : A -> B -> Prop) (f : A -> string)
    (g : B -> string) (l : list A) (l' : list B) :
  Forall2 (fun a b => g b = f a /\ P a b) l l' -> map g l' = map f l.
Proof.
  induction 1 as [| a b l l' [E _] _ IH]; cbn; [reflexivity |].
  now rewrite E, IH.
Qed.

Lemma Forall2_right {A B : Type} (P : A -> B -> Prop) (Q : B -> Prop)
    (l : list A) (l' : list B) :
  Forall2 P l l' ->
  (forall a b, In a l -> P a b -> Q b) ->
  Forall Q l'.
Proof.
  induction 1 as [| a b l l' Hab _ IH]; intros H; constructor.
  - apply (H a b); [now left | assumption].
  - apply IH. intros x y Hx. apply H. now right.
Qed.

(** The ranking of a usable store: the score table, reordered by
    descending score, ties in store order, NaN last. *)
Lemma match_raga_on_ranked (patterns : list (string * raga_info)) (d : list R) :
  usable_store patterns ->
  List.length d = 12%nat ->
  exists scs ranked,
    match_raga_on patterns (Arr d) = Return ranked
    /\ Forall2 (fun p e =>
                  fst e = fst p
                  /\ exists y,
                       ideal_profile (key_intervals (snd p)) = Return (Arr y)
                       /\ corrcoef01 (Arr d) (Arr y) = Return (snd e))
               patterns scs
    /\ Permutation ranked scs
    /\ StronglySorted (ranks_before (store_index patterns)) ranked.
Proof.
  intros [ND Hu] Ld.
  destruct (score_all_spec patterns d Ld Hu []) as (scs & Es & F);
    [exact ND |].
  cbn [app] in Es.
  exists scs, (sorted snd score_lt true scs).
  split; [unfold match_raga_on; now rewrite Es |].
  split; [exact F |].
  pose proof (Forall2_names _ fst fst _ _ F) as Hnames.
  (* every score is the same function of the spread of [d] *)
  set (X0 := map (fun a => a - mean d) d).
  assert (Hsc : Forall (fun e => if Req_dec_T (sqrt (dot X0 X0 / 11)) 0
                                 then snd e = None
                                 else exists r, snd e = Some r) scs).
  { rewrite Forall_forall in Hu.
    apply (Forall2_right _ _ _ _ F). intros p e Hp [_ (y & Ey & Ec)].
    pose proof (Hu p Hp) as Up.
    destruct (ideal_profile_spec _ Up) as (y' & w & Ey' & Ly & Hw & Hy).
    rewrite Ey in Ey'. injection Ey' as <-.
    pose proof (reference_spread _ y w (mean y) Up Ly Hw Hy) as Vy.
    rewrite (corrcoef01_value d y Ld Ly Vy) in Ec. cbv zeta in Ec.
    fold X0 in Ec. injection Ec as <-.
    destruct (Req_dec_T (sqrt (dot X0 X0 / 11)) 0); eauto. }
  rewrite Forall_forall in Hsc.
  destruct (sorted_reverse_spec snd score_lt
              (fun e => match snd e with Some r => r | None => 0 end)
              (fun e => store_index patterns (fst e)) scs) as [S P].
  - intros a b Ha Hb. specialize (Hsc a Ha) as Sa. specialize (Hsc b Hb) as Sb.
    destruct (Req_dec_T (sqrt (dot X0 X0 / 11)) 0).
    + rewrite Sa, Sb. cbn. split; [discriminate | lra].
    + destruct Sa as [ra ->], Sb as [rb ->]. cbn.
      destruct (Rlt_dec ra rb); split; auto; discriminate.
  - apply SSorted_map with (f := fst)
      (P := fun a b => (store_index patterns a < store_index patterns b)%Z).
    rewrite Hnames. unfold store_index. now apply index_of_sorted.
  - split; [exact P |].
    eapply SSorted_weaken; [| exact S]. cbn.
    intros a b Ha Hb H.
    apply (Permutation_in _ P) in Ha. apply (Permutation_in _ P) in Hb.
    specialize (Hsc a Ha) as Sa. specialize (Hsc b Hb) as Sb.
    unfold ranks_before.
    destruct (Req_dec_T (sqrt (dot X0 X0 / 11)) 0).
    + rewrite Sa, Sb in *. cbn. right. split; [exact I |].
      destruct H as [H | [_ H]]; [lra | exact H].
    + destruct Sa as [ra Ea], Sb as [rb Eb]. rewrite Ea, Eb in *. cbn.
      destruct H as [H | [H1 H2]]; [now left | now right].
Qed.

Lemma Forall2_in_left {A B : Type} (P : A -> B -> Prop)
    (l : list A) (l' : list B) (a : A) :
  Forall2 P l l' -> In a l -> exists b, In b l' /\ P a b.
Proof.
  induction 1 as [| x y l l' Hxy _ IH]; intros Hin; [contradiction |].
  destruct Hin as [<- | Hin].
  - exists y. split; [now left | assumption].
  - destruct (IH Hin) as (b & Hb & Pb). exists b. split; [now right | assumption].
Qed.

Lemma Forall2_in_right {A B : Type} (P : A -> B -> Prop)
    (l : list A) (l' : list B) (b : B) :
  Forall2 P l l' -> In b l' -> exists a, In a l /\ P a b.
Proof.
  induction 1 as [| x y l l' Hxy _ IH]; intros Hin; [contradiction |].
  destruct Hin as [<- | Hin].
  - exists x. split; [now left | assumption].
  - destruct (IH Hin) as (a & Ha & Pa). exists a. split; [now right | assumption].
Qed.

Lemma NoDup_fst_unique {V : Type} (l : list (string * V)) (k : string) (v v' : V) :
  NoDup (map fst l) -> In (k, v) l -> In (k, v') l -> v = v'.
Proof.
  induction l as [| [k0 v0] l IH]; cbn; intros ND H H'; [contradiction |].
  inversion ND as [| ? ? Hk ND']; subst.
  destruct H as [E | H], H' as [E' | H'].
  - congruence.
  - injection E as -> ->. exfalso. apply Hk.
    change k with (fst (k, v')). now apply in_map.
  - injection E' as -> ->. exfalso. apply Hk.
    change k with (fst (k, v)). now apply in_map.
  - now apply IH.
Qed.

(** The observed distribution is the reference of a stored profile whose
    class set no other stored profile shares: that profile scores 1 and
    heads the ranking. *)
Lemma exact_profile_first (patterns : list (string * raga_info))
    (name : string) (info : raga_info) (x : list R) :
  usable_store patterns ->
  In (name, info) patterns ->
  ideal_profile (key_intervals info) = Return (Arr x) ->
  (forall name' info', In (name', info') patterns -> name' <> name ->
     ~ same_classes (key_intervals info') (key_intervals info)) ->
  exists rest,
    match_raga_on patterns (Arr x) = Return ((name, Some 1) :: rest).
Proof.
  intros Us Hin Eobs Hdist. pose proof Us as [ND Hu].
  rewrite Forall_forall in Hu.
  pose proof (Hu _ Hin) as Up. cbn [snd] in Up.
  destruct (ideal_profile_spec _ Up) as (x' & w & Ex & Lx & Hw & Hx).
  rewrite Eobs in Ex. injection Ex as <-.
  pose proof (reference_spread _ x w (mean x) Up Lx Hw Hx) as Vx.
  destruct (match_raga_on_ranked patterns x Us Lx)
    as (scs & ranked & Em & F & P & S).
  set (X0 := map (fun a => a - mean x) x) in *.
  assert (Hsd : sqrt (dot X0 X0 / 11) <> 0).
  { assert (0 < sqrt (dot X0 X0 / 11)); [| lra].
    apply sqrt_lt_R0. apply Rdiv_lt_0_compat; lra. }
  assert (Hentry : forall p e,
             In p patterns ->
             (fst e = fst p
              /\ exists y, ideal_profile (key_intervals (snd p)) = Return (Arr y)
                           /\ corrcoef01 (Arr x) (Arr y) = Return (snd e)) ->
             (fst p = name -> e = (name, Some 1))
             /\ (fst p <> name -> exists r, snd e = Some r /\ r < 1)).
  { intros [n' i'] [en es] Hp (En & y & Ey & Ec). cbn [fst snd] in *.
    subst en.
    pose proof (Hu _ Hp) as Up'. cbn [snd] in Up'.
    destruct (ideal_profile_spec _ Up') as (y' & w' & Ey' & Ly & Hw' & Hy).
    rewrite Ey in Ey'. injection Ey' as <-.
    pose proof (reference_spread _ y w' (mean y) Up' Ly Hw' Hy) as Vy.
    rewrite (corrcoef01_value x y Lx Ly Vy) in Ec. cbv zeta in Ec.
    fold X0 in Ec.
    destruct (Req_dec_T (sqrt (dot X0 X0 / 11)) 0) as [? | _];
      [contradiction |].
    injection Ec as <-. split.
    - intros ->.
      assert (i' = info) as -> by (eapply NoDup_fst_unique; eassumption).
      rewrite Eobs in Ey. injection Ey as <-. fold X0.
      rewrite pearson_self by lra. now rewrite clip_1.
    - intros Hn. eexists. split; [reflexivity |].
      apply clip_lt_1.
      apply (different_classes_below_1 (key_intervals info)
               (key_intervals i') x y w w'); auto.
      now apply (Hdist n' i'). }
  destruct (Forall2_in_left _ _ _ _ F Hin) as (e0 & He0 & R0).
  destruct (Hentry _ _ Hin R0) as [Htop _].
  specialize (Htop eq_refl). subst e0.
  destruct ranked as [| h rest].
  { apply Permutation_nil in P. subst scs. contradiction. }
  exists rest. rewrite Em. do 2 f_equal.
  assert (Hh : In h scs) by (apply (Permutation_in _ P); now left).
  destruct (Forall2_in_right _ _ _ _ F Hh) as (p & Hp & Rp).
  destruct (Hentry _ _ Hp Rp) as [Heq Hlt].
  destruct (String.eqb_spec (fst p) name) as [E | E]; [now apply Heq |].
  exfalso. destruct (Hlt E) as (r & Hr & Hr1).
  apply (Permutation_in _ (Permutation_sym P)) in He0.
  destruct He0 as [-> | Hrest]; [cbn in Hr; injection Hr as <-; lra |].
  inversion S as [| ? ? _ Fh]; subst.
  rewrite Forall_forall in Fh. specialize (Fh _ Hrest).
  unfold ranks_before in Fh. rewrite Hr in Fh. cbn in Fh.
  destruct Fh as [? | [? _]]; lra.
Qed.

(** ** The profile table of the detector *)

Lemma same_classes_existsb (a b : list Z) :
  same_classes a b ->
  forall k, existsb (Z.eqb k) a = existsb (Z.eqb k) b.
Proof.
  intros H k. specialize (H k). rewrite <- !existsb_eqb_In in H.
  destruct (existsb (Z.eqb k) a), (existsb (Z.eqb k) b);
    try reflexivity; destruct H as [H1 H2];
    [ symmetry; now apply H1 | now apply H2 ].
Qed.

Lemma RAGA_PATTERNS_usable : usable_store RAGA_PATTERNS.
Proof.
  split.
  - cbn. repeat constructor; cbn; intuition discriminate.
  - repeat constructor; cbn; try discriminate; try lia;
      first [ exists 1%Z; split; [lia | cbn; intuition discriminate]
            | exists 2%Z; split; [lia | cbn; intuition discriminate] ].
Qed.

(** No two stored profiles have the same set of pitch classes. *)
Lemma RAGA_PATTERNS_distinct (name name' : string) (info info' : raga_info) :
  In (name, info) RAGA_PATTERNS -> In (name', info') RAGA_PATTERNS ->
  name' <> name ->
  ~ same_classes (key_intervals info') (key_intervals info).
Proof.
  intros H H' Hn Hs. pose proof (same_classes_existsb _ _ Hs) as E.
  cbn in H, H'.
  repeat (destruct H as [H | H]; [injection H as <- <- |]);
    try contradiction;
    repeat (destruct H' as [H' | H']; [injection H' as <- <- |]);
    try contradiction;
    try (now apply Hn);
    first [ differ_at E 1%Z | differ_at E 2%Z | differ_at E 3%Z
          | differ_at E 5%Z | differ_at E 6%Z ].
Qed.

Lemma major_scale_is_reference :
  ideal_profile [0; 2; 4; 5; 7; 9; 11]%Z = Return (Arr major_scale_distribution).
Proof.
  unfold ideal_profile.
  replace (mark (repeat 0 12) [0; 2; 4; 5; 7; 9; 11]%Z)
    with (Return [1; 0; 1; 0; 1; 1; 0; 1; 0; 1; 0; 1])
    by (cbv -[IZR]; reflexivity).
  cbn [bind].
  replace (sum [1; 0; 1; 0; 1; 1; 0; 1; 0; 1; 0; 1]) with 7
    by (unfold sum; cbn [fold_right]; lra).
  unfold divide. destruct (Req_dec_T 7 0) as [E | _]; [lra |].
  cbn [map]. unfold major_scale_distribution.
  replace (0 / 7) with 0 by lra. reflexivity.
Qed.

(** C7.  When the observed distribution is exactly the reference
    distribution of a stored profile, and no other stored profile has the
    same set of pitch classes, [match_raga] gives that profile the score 1
    and returns it first.  In particular the equal-weight distribution on
    the classes 0, 2, 4, 5, 7, 9, 11 puts the major-scale profile (the one
    described as the 29th Melakarta) first with score 1. *)
Theorem exact_profile_ranks_first (name : string) (info : raga_info)
    (observed : ndarray) :
  In (name, info) RAGA_PATTERNS ->
  ideal_profile (key_intervals info) = Return observed ->
  (forall name' info', In (name', info') RAGA_PATTERNS -> name' <> name ->
     ~ same_classes (key_intervals info') (key_intervals info)) ->
  (exists rest, match_raga observed = Return ((name, Some 1) :: rest))
  /\ (exists rest,
        match_raga (Arr major_scale_distribution) =
          Return (("Shankarabharanam"%string, Some 1) :: rest)).
Proof.
  intros Hin Eobs Hdist. split.
  - pose proof RAGA_PATTERNS_usable as Us. pose proof Us as [_ Hu].
    rewrite Forall_forall in Hu. pose proof (Hu _ Hin) as Up.
    destruct (ideal_profile_spec _ Up) as (x & w & Ex & _).
    cbn [snd] in Ex. rewrite Eobs in Ex. injection Ex as ->.
    now apply (exact_profile_first RAGA_PATTERNS name info x).
  - eapply (exact_profile_first RAGA_PATTERNS "Shankarabharanam").
    + exact RAGA_PATTERNS_usable.
    + cbn. right. right. left. reflexivity.
    + exact major_scale_is_reference.
    + intros name' info' H' Hn.
      eapply RAGA_PATTERNS_distinct; [| exact H' | exact Hn].
      cbn. right. right. left. reflexivity.
Qed.

Lemma exact_profile_ranks_first_major_scale :
  let name := "Shankarabharanam"%string in
  let info := {| swaras := ["S"; "R2"; "G3"; "M1"; "P"; "D2"; "N3"]%string;
                 key_intervals := [0; 2; 4; 5; 7; 9; 11]%Z;
                 description := "29th Melakarta, very common"%string |} in
  In (name, info) RAGA_PATTERNS
  /\ ideal_profile (key_intervals info) = Return (Arr major_scale_distribution)
  /\ (forall name' info', In (name', info') RAGA_PATTERNS -> name' <> name ->
        ~ same_classes (key_intervals info') (key_intervals info))
  /\ ((exists rest,
         match_raga (Arr major_scale_distribution) =
           Return ((name, Some 1) :: rest))
      /\ (exists rest,
            match_raga (Arr major_scale_distribution) =
              Return (("Shankarabharanam"%string, Some 1) :: rest))).
Proof.
  cbv zeta.
  set (info := {| swaras := ["S"; "R2"; "G3"; "M1"; "P"; "D2"; "N3"]%string;
                  key_intervals := [0; 2; 4; 5; 7; 9; 11]%Z;
                  description := "29th Melakarta, very common"%string |}).
  assert (H1 : In ("Shankarabharanam"%string, info) RAGA_PATTERNS)
    by (cbn; right; right; left; reflexivity).
  assert (H2 : ideal_profile (key_intervals info)
               = Return (Arr major_scale_distribution))
    by exact major_scale_is_reference.
  assert (H3 : forall name' info', In (name', info') RAGA_PATTERNS ->
                 name' <> "Shankarabharanam"%string ->
                 ~ same_classes (key_intervals info') (key_intervals info))
    by (intros name' info' H' Hn;
        exact (RAGA_PATTERNS_distinct _ _ _ _ H1 H' Hn)).
  split; [exact H1 |]. split; [exact H2 |]. split; [exact H3 |].
  exact (exact_profile_ranks_first "Shankarabharanam" info
           (Arr major_scale_distribution) H1 H2 H3).
Defined.

(** C8.  On every 12-bin observed distribution [match_raga] raises
    nothing: it returns a ranking that holds every stored profile exactly
    once, ordered by descending score with ties in the insertion order of
    the store, a profile whose score is NaN never standing before one
    whose score is a number. *)
Theorem match_raga_ranks_every_profile (d : list R) :
  List.length d = 12%nat ->
  exists ranked,
    match_raga (Arr d) = Return ranked
    /\ Permutation (map fst ranked) (map fst RAGA_PATTERNS)
    /\ NoDup (map fst ranked)
    /\ StronglySorted (ranks_before (store_index RAGA_PATTERNS)) ranked
    /\ (forall a b pre mid post,
          ranked = (pre ++ a :: mid ++ b :: post)%list ->
          snd a = None -> snd b = None).
Proof.
  intros Ld.
  destruct (match_raga_on_ranked RAGA_PATTERNS d RAGA_PATTERNS_usable Ld)
    as (scs & ranked & Em & F & P & S).
  exists ranked. split; [exact Em |].
  assert (Hperm : Permutation (map fst ranked) (map fst RAGA_PATTERNS)).
  { rewrite <- (Forall2_names _ fst fst _ _ F). now apply Permutation_map. }
  split; [exact Hperm |]. split.
  - apply (Permutation_NoDup (Permutation_sym Hperm)).
    apply RAGA_PATTERNS_usable.
  - split; [exact S |].
    intros a b pre mid post E Ha. subst ranked.
    apply SSorted_app_r in S.
    inversion S as [| ? ? _ Fa]; subst.
    rewrite Forall_forall in Fa.
    assert (Hb : In b (mid ++ b :: post)%list)
      by (apply in_or_app; right; now left).
    specialize (Fa b Hb). unfold ranks_before in Fa. rewrite Ha in Fa.
    cbn in Fa. destruct Fa as [[] | [Ht _]].
    now destruct (snd b).
Qed.

Lemma match_raga_ranks_every_profile_uniform :
  List.length (repeat (1 / 12) 12) = 12%nat
  /\ exists ranked,
       match_raga (Arr (repeat (1 / 12) 12)) = Return ranked
       /\ Permutation (map fst ranked) (map fst RAGA_PATTERNS)
       /\ NoDup (map fst ranked)
       /\ StronglySorted (ranks_before (store_index RAGA_PATTERNS)) ranked
       /\ (forall a b pre mid post,
             ranked = (pre ++ a :: mid ++ b :: post)%list ->
             snd a = None -> snd b = None).
Proof.
  split; [reflexivity |].
  apply (match_raga_ranks_every_profile (repeat (1 / 12) 12)). reflexivity.
Defined.

(** The degenerate case at work: on the uniform distribution every score
    is NaN and the ranking is the store in insertion order. *)
Lemma uniform_distribution_all_nan :
  match_raga (Arr (repeat (1 / 12) 12)) =
    Return [ ("Mohanam"%string, None); ("Mayamalavagowla"%string, None);
             ("Shankarabharanam"%string, None); ("Kalyani"%string, None);
             ("Bhairavi"%string, None) ].
Proof.
  set (d := repeat (1 / 12) 12).
  assert (Ld : List.length d = 12%nat) by reflexivity.
  assert (Hflat : sqrt (dot (map (fun a => a - mean d) d)
                            (map (fun a => a - mean d) d) / 11) = 0).
  { replace (mean d) with (1 / 12).
    - unfold d. cbn [repeat map dot].
      replace (1 / 12 - 1 / 12) with 0 by lra.
      replace ((0 * 0 + (0 * 0 + (0 * 0 + (0 * 0 + (0 * 0 + (0 * 0 +
                (0 * 0 + (0 * 0 + (0 * 0 + (0 * 0 + (0 * 0 + (0 * 0 + 0))))))
                )))))) / 11) with 0 by lra.
      apply sqrt_0.
    - unfold mean. rewrite Ld.
      replace (INR 12) with 12 by (rewrite INR_IZR_INZ; reflexivity).
      unfold d, sum. cbn [repeat fold_right]. lra. }
  destruct RAGA_PATTERNS_usable as [ND Hu].
  destruct (score_all_spec RAGA_PATTERNS d Ld Hu []) as (scs & Es & F);
    [exact ND |].
  unfold match_raga, match_raga_on. rewrite Es. cbn [bind app].
  assert (Hnone : Forall (fun e => snd e = None) scs).
  { rewrite Forall_forall in Hu.
    apply (Forall2_right _ _ _ _ F). intros p e Hp [_ (y & Ey & Ec)].
    pose proof (Hu p Hp) as Up.
    destruct (ideal_profile_spec _ Up) as (y' & w & Ey' & Ly & Hw & Hy).
    rewrite Ey in Ey'. injection Ey' as <-.
    pose proof (reference_spread _ y w (mean y) Up Ly Hw Hy) as Vy.
    rewrite (corrcoef01_value d y Ld Ly Vy) in Ec. cbv zeta in Ec.
    rewrite Hflat in Ec.
    destruct (Req_dec_T 0 0) as [_ | N]; [| contradiction].
    now injection Ec as <-. }
  unfold RAGA_PATTERNS in F.
  repeat match goal with
         | H : Forall2 _ (_ :: _) _ |- _ =>
             inversion H as [| ? [? ?] ? ? [? _] ?]; subst; clear H
         | H : Forall2 _ [] _ |- _ => inversion H; subst; clear H
         end.
  repeat match goal with
         | H : Forall _ (_ :: _) |- _ =>
             let E := fresh in
             inversion H as [| ? ? E ?]; subst; clear H; cbn in E; subst
         end.
  repeat match goal with
         | H : fst _ = fst _ |- _ => cbn in H; subst
         end.
  reflexivity.
Qed.

End RankingFacts.

(** * Further properties of the rule engine and of the table generator *)

Module MelakartaExtras.

Import Melakarta Detector Generator MelakartaFacts.
Open Scope string_scope.
Open Scope Z_scope.

(** Every result, for any integer, fills the seven slots with one variant
    per degree: S and P are fixed, and each of the five other slots holds
    one of the (label, interval) pairs that the code can produce for it. *)
Lemma labelled_slots (n : Z) :
  exists r g m d nn,
    labelled n = [("S", 0); r; g; m; ("P", 7); d; nn]
    /\ In r [("R1", 1); ("R2", 2); ("R3", 3)]
    /\ In g [("G1", 3); ("G1", 4); ("G2", 4); ("G3", 4)]
    /\ In m [("M1", 5); ("M2", 6)]
    /\ In d [("D1", 8); ("D2", 9); ("D3", 10)]
    /\ In nn [("N1", 10); ("N2", 11); ("N3", 11)].
Proof.
  unfold labelled, get_melakarta_structure.
  destruct (n <=? 36);
    match goal with
    | |- context [(?a - 1) mod 6 + 1] =>
        pose proof (position_range a) as Hp; cbv zeta in Hp;
        set (position := (a - 1) mod 6 + 1) in *;
        set (chakra := (a - 1) / 6 + 1); clearbody position chakra
    end;
    split_chakra chakra;
    split_position Hp; cbn;
    do 5 eexists; (split; [reflexivity |]); cbn; auto 10.
Qed.

(** X1.  Indices i and i + 36 (1 <= i <= 36) name the same scale up to the
    madhyama: the results agree in every slot except the fourth, which is
    M1 with interval 5 for i and M2 with interval 6 for i + 36. *)
Theorem prati_madhyama_pairing (i : Z) :
  1 <= i <= 36 ->
  exists R G D N R_int G_int D_int N_int,
    get_melakarta_structure i =
      Return (["S"; R; G; "M1"; "P"; D; N], [0; R_int; G_int; 5; 7; D_int; N_int])
    /\ get_melakarta_structure (i + 36) =
      Return (["S"; R; G; "M2"; "P"; D; N], [0; R_int; G_int; 6; 7; D_int; N_int]).
Proof.
  intros Hi. unfold get_melakarta_structure.
  replace (i <=? 36) with true by (symmetry; apply Z.leb_le; lia).
  replace (i + 36 <=? 36) with false by (symmetry; apply Z.leb_gt; lia).
  replace (i + 36 - 36) with i by lia.
  pose proof (position_range i) as Hp. cbv zeta in Hp.
  set (position := (i - 1) mod 6 + 1) in *.
  set (chakra := (i - 1) / 6 + 1). clearbody position chakra.
  split_chakra chakra; split_position Hp; cbn;
    do 8 eexists; split; reflexivity.
Qed.

Lemma prati_madhyama_pairing_29 :
  1 <= 29 <= 36 /\
  exists R G D N R_int G_int D_int N_int,
    get_melakarta_structure 29 =
      Return (["S"; R; G; "M1"; "P"; D; N], [0; R_int; G_int; 5; 7; D_int; N_int])
    /\ get_melakarta_structure (29 + 36) =
      Return (["S"; R; G; "M2"; "P"; D; N], [0; R_int; G_int; 6; 7; D_int; N_int]).
Proof.
  split; [lia | apply (prati_madhyama_pairing 29); lia].
Defined.

(** X2.  The index does not determine the scale: chakras 1 and 2 give the
    same results, so do chakras 5 and 6, and the last three positions of
    chakras 3 and 4, in both halves.  For each of these indices n the
    index n + 6 returns exactly what n returns. *)
Theorem chakra_duplicates (n : Z) :
  1 <= n <= 6 \/ 16 <= n <= 18 \/ 25 <= n <= 30 \/
  37 <= n <= 42 \/ 52 <= n <= 54 \/ 61 <= n <= 66 ->
  get_melakarta_structure (n + 6) = get_melakarta_structure n.
Proof.
  intros [H | [H | [H | [H | [H | H]]]]].
  - enumerate_from n 1 6%nat ltac:(reflexivity).
  - enumerate_from n 16 3%nat ltac:(reflexivity).
  - enumerate_from n 25 6%nat ltac:(reflexivity).
  - enumerate_from n 37 6%nat ltac:(reflexivity).
  - enumerate_from n 52 3%nat ltac:(reflexivity).
  - enumerate_from n 61 6%nat ltac:(reflexivity).
Qed.

Lemma chakra_duplicates_25 :
  (1 <= 25 <= 6 \/ 16 <= 25 <= 18 \/ 25 <= 25 <= 30 \/
   37 <= 25 <= 42 \/ 52 <= 25 <= 54 \/ 61 <= 25 <= 66)
  /\ get_melakarta_structure (25 + 6) = get_melakarta_structure 25.
Proof.
  assert (H : 1 <= 25 <= 6 \/ 16 <= 25 <= 18 \/ 25 <= 25 <= 30 \/
              37 <= 25 <= 42 \/ 52 <= 25 <= 54 \/ 61 <= 25 <= 66) by lia.
  split; [exact H | exact (chakra_duplicates 25 H)].
Defined.

(** X3.  Over the indices 1..72 the function returns only 42 different
    scales, and only 24 different interval sequences. *)
Theorem distinct_scales_count :
  List.length
    (dedup (list_eqb (fun a b => String.eqb (fst a) (fst b)
                                 && Z.eqb (snd a) (snd b)))
           (map labelled (range 1 73))) = 42%nat
  /\ List.length
       (dedup (list_eqb Z.eqb)
              (map (fun n => map snd (labelled n)) (range 1 73))) = 24%nat.
Proof. split; vm_compute; reflexivity. Qed.

(** X4.  Every (label, interval) pair of every result, for any integer,
    is a pair of the documented offset table, except that G1 also occurs
    with interval 4; and every label other than G1 has the same interval
    wherever it occurs. *)
Theorem offsets_documented_except_G1 (n : Z) (l : string) (v : Z) :
  In (l, v) (labelled n) ->
  (In (l, v) documented_offsets \/ (l, v) = ("G1", 4))
  /\ (l <> "G1" -> forall j b, In (l, b) (labelled j) -> b = v).
Proof.
  assert (T : forall m p, In p (labelled m) ->
                In p documented_offsets \/ p = ("G1", 4)).
  { intros m p Hin.
    destruct (labelled_slots m) as (r & g & mm & d & nn & E & Hr & Hg & Hm & Hd & Hn).
    rewrite E in Hin. unfold documented_offsets.
    destruct Hin as [<- | [<- | [<- | [<- | [<- | [<- | [<- | []]]]]]]].
    - cbn; auto 20.
    - clear - Hr. cbn in Hr. destruct Hr as [<- | [<- | [<- | []]]];
        cbn; auto 20.
    - clear - Hg. cbn in Hg. destruct Hg as [<- | [<- | [<- | [<- | []]]]];
        cbn; auto 20.
    - clear - Hm. cbn in Hm. destruct Hm as [<- | [<- | []]]; cbn; auto 20.
    - cbn; auto 20.
    - clear - Hd. cbn in Hd. destruct Hd as [<- | [<- | [<- | []]]];
        cbn; auto 20.
    - clear - Hn. cbn in Hn. destruct Hn as [<- | [<- | [<- | []]]];
        cbn; auto 20. }
  intros Hin. split; [now apply (T n) |].
  intros Hl j b Hj.
  destruct (T _ _ Hin) as [H1 | H1], (T _ _ Hj) as [H2 | H2];
    try (injection H1 as -> _; congruence);
    try (injection H2 as -> _; congruence).
  unfold documented_offsets in H1, H2. cbn [In] in H1, H2.
  repeat match goal with
         | H : _ \/ _ |- _ => destruct H as [H | H]
         | H : (_, _) = (_, _) |- _ => injection H as ? ?; subst
         | H : False |- _ => destruct H
         end;
    first [reflexivity | congruence | discriminate].
Qed.

Lemma offsets_documented_except_G1_example :
  In ("N2", 11) (labelled 2)
  /\ ((In ("N2", 11) documented_offsets \/ ("N2", 11) = ("G1", 4))
      /\ ("N2" <> "G1" -> forall j b, In ("N2", b) (labelled j) -> b = 11)).
Proof.
  assert (H : In ("N2", 11) (labelled 2)) by (vm_compute; tauto).
  split; [exact H | exact (offsets_documented_except_G1 2 "N2" 11 H)].
Defined.

Lemma In_range (a b i : Z) : a <= i < b -> In i (range a b).
Proof.
  intros H. unfold range. apply in_map_iff.
  exists (Z.to_nat (i - a)). split; [lia |].
  apply in_seq. lia.
Qed.

Lemma list_eqb_eq {A : Type} (eqb : A -> A -> bool) :
  (forall x y, eqb x y = true -> x = y) ->
  forall l l', list_eqb eqb l l' = true -> l = l'.
Proof.
  intros Heq. induction l as [| x l IH]; intros [| y l'] H; cbn in H;
    try discriminate; [reflexivity |].
  apply andb_true_iff in H. destruct H as [Hxy Hl].
  f_equal; [now apply Heq | now apply IH].
Qed.

(** X5.  [generate_all_melakartas] raises nothing and returns 72 entries
    whose keys are the names in their order: no name repeats, so no
    assignment overwrites an earlier entry.  The entry at index i holds
    the result of [get_melakarta_structure i] and the description made of
    the decimal digits of i followed by "th Melakarta raga". *)
Theorem generated_table_entries :
  exists table,
    generate_all_melakartas = Return table
    /\ map fst table = MELAKARTA_NAMES
    /\ List.length table = 72%nat
    /\ forall i, 1 <= i <= 72 ->
         exists name swara_names intervals,
           index MELAKARTA_NAMES (i - 1) = Return name
           /\ get_melakarta_structure i = Return (swara_names, intervals)
           /\ nth_error table (Z.to_nat (i - 1)) =
                Some (name, Build_raga_info swara_names intervals
                              (str i ++ "th Melakarta raga")).
Proof.
  destruct generate_all_melakartas as [table | e] eqn:E;
    [| vm_compute in E; discriminate].
  exists table. split; [reflexivity |].
  assert (Hnames : map fst table = MELAKARTA_NAMES).
  { assert (Return (map fst table) = Return MELAKARTA_NAMES) as H;
      [| now injection H].
    change (Return (map fst table))
      with (bind (Return table) (fun t => Return (map fst t))).
    rewrite <- E. vm_compute. reflexivity. }
  split; [exact Hnames |].
  split; [rewrite <- (length_map fst), Hnames; reflexivity |].
  assert (B : match generate_all_melakartas with
              | Raise _ => false
              | Return table =>
            (forallb (fun i =>
              match index MELAKARTA_NAMES (i - 1),
                    get_melakarta_structure i,
                    nth_error table (Z.to_nat (i - 1)) with
              | Return name, Return (sw, iv), Some (nm, info) =>
                  String.eqb nm name
                  && list_eqb String.eqb (swaras info) sw
                  && list_eqb Z.eqb (key_intervals info) iv
                  && String.eqb (description info)
                                (str i ++ "th Melakarta raga")
              | _, _, _ => false
              end) (range 1 73))
              end = true)
    by (vm_compute; reflexivity).
  rewrite E in B.
  rewrite forallb_forall in B.
  intros i Hi. specialize (B i (In_range 1 73 i ltac:(lia))).
  destruct (index MELAKARTA_NAMES (i - 1)) as [name |]; [| discriminate].
  destruct (get_melakarta_structure i) as [[sw iv] |]; [| discriminate].
  destruct (nth_error table (Z.to_nat (i - 1))) as [[nm [s1 k1 d1]] |];
    [| discriminate].
  cbn [swaras key_intervals description] in B.
  repeat (apply andb_true_iff in B; destruct B as [B ?]).
  apply String.eqb_eq in B.
  repeat match goal with
         | H : String.eqb _ _ = true |- _ => apply String.eqb_eq in H
         | H : list_eqb String.eqb _ _ = true |- _ =>
             apply (list_eqb_eq _ (fun x y => proj1 (String.eqb_eq x y))) in H
         | H : list_eqb Z.eqb _ _ = true |- _ =>
             apply (list_eqb_eq _ (fun x y => proj1 (Z.eqb_eq x y))) in H
         end.
  subst. exists name, sw, iv. auto.
Qed.

End MelakartaExtras.

(** * Further properties of the analysis pipeline *)

Module DetectorExtras.

Import Numpy NumpyFacts Detector DetectorFacts RankingFacts.
Open Scope R_scope.

(** ** The pitch-class projection *)

Lemma count_le_length (x : list Z) (k : Z) :
  (count_occ Z.eq_dec x k <= List.length x)%nat.
Proof.
  induction x as [| y x IH]; cbn; [lia |].
  destruct (Z.eq_dec y k); lia.
Qed.

(** X6.  [extract_swara_distribution] raises nothing.  Without samples it
    returns the array of NaN (the counts are all 0 and so is their sum);
    with samples (positive, against a positive tonic) it returns 12
    numbers, each between 0 and 1: the share of the samples that fall in
    the pitch class. *)
Theorem distribution_entries (f0_clean : list R) (tonic_hz : R) :
  Forall (fun f => 0 < f) f0_clean ->
  0 < tonic_hz ->
  (f0_clean = [] ->
     extract_swara_distribution f0_clean tonic_hz = Return NaNs)
  /\ (f0_clean <> [] ->
        exists d,
          extract_swara_distribution f0_clean tonic_hz = Return (Arr d)
          /\ List.length d = 12%nat
          /\ forall k, (k < 12)%nat ->
               nth k d 0 =
                 INR (count_occ Z.eq_dec (map (semitone tonic_hz) f0_clean)
                                (Z.of_nat k))
                 / INR (List.length f0_clean)
               /\ 0 <= nth k d 0 <= 1).
Proof.
  intros _ _. split.
  - intros ->. unfold extract_swara_distribution. cbn [map bincount existsb bind].
    unfold divide.
    replace (isum _) with 0%Z by (vm_compute; reflexivity).
    destruct (Req_dec_T 0 0) as [_ | N]; [reflexivity | contradiction].
  - intros Hne. unfold extract_swara_distribution.
    set (semitones := map (semitone tonic_hz) f0_clean).
    assert (Hr : Forall (fun v => 0 <= v < Z.of_nat 12)%Z semitones).
    { unfold semitones. rewrite Forall_map. apply Forall_forall.
      intros f _. apply semitone_range. }
    rewrite (bincount_in_range _ _ Hr). cbn [bind].
    rewrite (isum_counts _ _ Hr).
    assert (Hlen : List.length semitones = List.length f0_clean)
      by (unfold semitones; now rewrite length_map).
    rewrite Hlen.
    assert (Hn : 0 < INR (List.length f0_clean)).
    { apply lt_0_INR. destruct f0_clean; [congruence | cbn; lia]. }
    rewrite <- INR_IZR_INZ.
    unfold divide.
    destruct (Req_dec_T (INR (List.length f0_clean)) 0) as [E | _]; [lra |].
    eexists. split; [reflexivity |].
    split; [now rewrite !length_map, length_seq |].
    intros k Hk.
    rewrite nth_map_0 by (now rewrite !length_map, length_seq).
    assert (Hk' : nth k (map IZR
                    (map (fun k => Z.of_nat (count_occ Z.eq_dec semitones
                                                       (Z.of_nat k)))
                         (seq 0 12))) 0
                  = INR (count_occ Z.eq_dec semitones (Z.of_nat k))).
    { apply nth_error_nth.
      rewrite !nth_error_map, nth_error_seq.
      replace (k <? 12)%nat with true by (symmetry; apply Nat.ltb_lt; lia).
      cbn [option_map Nat.add]. now rewrite <- INR_IZR_INZ. }
    rewrite Hk'. split; [reflexivity |].
    pose proof (count_le_length semitones (Z.of_nat k)) as Hc.
    rewrite Hlen in Hc. apply le_INR in Hc.
    pose proof (pos_INR (count_occ Z.eq_dec semitones (Z.of_nat k))) as Hp.
    split.
    + apply Rmult_le_pos; [assumption |].
      apply Rlt_le. now apply Rinv_0_lt_compat.
    + apply (Rmult_le_reg_r (INR (List.length f0_clean))); [assumption |].
      unfold Rdiv. rewrite Rmult_assoc, Rinv_l by lra. lra.
Qed.

Lemma distribution_entries_example :
  Forall (fun f => 0 < f) [220; 330]
  /\ 0 < 220
  /\ (([220; 330] = [] ->
         extract_swara_distribution [220; 330] 220 = Return NaNs)
      /\ ([220; 330] <> [] ->
            exists d,
              extract_swara_distribution [220; 330] 220 = Return (Arr d)
              /\ List.length d = 12%nat
              /\ forall k, (k < 12)%nat ->
                   nth k d 0 =
                     INR (count_occ Z.eq_dec (map (semitone 220) [220; 330])
                                    (Z.of_nat k))
                     / INR (List.length [220; 330])
                   /\ 0 <= nth k d 0 <= 1)).
Proof.
  assert (H1 : Forall (fun f => 0 < f) [220; 330]) by (repeat constructor; lra).
  assert (H2 : 0 < 220) by lra.
  split; [exact H1 |]. split; [exact H2 |].
  exact (distribution_entries [220; 330] 220 H1 H2).
Defined.

(** The pitch class depends on the sample and the tonic only through
    their ratio. *)
Lemma semitone_ratio (c tonic_hz f : R) :
  0 < c -> 0 < tonic_hz ->
  semitone (c * tonic_hz) (c * f) = semitone tonic_hz f.
Proof.
  intros Hc Ht. unfold semitone.
  replace (c * f / (c * tonic_hz)) with (f / tonic_hz) by (field; lra).
  reflexivity.
Qed.

(** X7.  Transposition: multiplying every sample and the tonic by the same
    positive factor leaves the distribution unchanged. *)
Theorem transposition_invariance (c : R) (f0_clean : list R) (tonic_hz : R) :
  0 < c -> 0 < tonic_hz ->
  extract_swara_distribution (map (Rmult c) f0_clean) (c * tonic_hz) =
    extract_swara_distribution f0_clean tonic_hz.
Proof.
  intros Hc Ht. unfold extract_swara_distribution. rewrite map_map.
  rewrite (map_ext (fun f => semitone (c * tonic_hz) (c * f))
                   (semitone tonic_hz)); [reflexivity |].
  intros f. now apply semitone_ratio.
Qed.

Lemma transposition_invariance_example :
  0 < 3 / 2 /\ 0 < 220
  /\ extract_swara_distribution (map (Rmult (3 / 2)) [220; 330]) (3 / 2 * 220) =
       extract_swara_distribution [220; 330] 220.
Proof.
  assert (H1 : 0 < 3 / 2) by lra. assert (H2 : 0 < 220) by lra.
  split; [exact H1 |]. split; [exact H2 |].
  exact (transposition_invariance (3 / 2) [220; 330] 220 H1 H2).
Defined.

Lemma log2_octaves (k : Z) (x : R) :
  0 < x -> log2 (powerRZ 2 k * x) = IZR k + log2 x.
Proof.
  intros Hx. unfold log2.
  assert (H2 : 0 < powerRZ 2 k) by (apply powerRZ_lt; lra).
  rewrite ln_mult by assumption.
  rewrite powerRZ_Rpower by lra. unfold Rpower. rewrite ln_exp.
  pose proof ln_2_pos. field. lra.
Qed.

Lemma remainder_add_periods (x m : R) (k : Z) :
  0 < m -> remainder (x + IZR k * m) m = remainder x m.
Proof.
  intros H. unfold remainder.
  replace ((x + IZR k * m) / m) with (x / m + IZR k) by (field; lra).
  rewrite Zfloor_addz, plus_IZR. ring.
Qed.

(** Any whole number of octaves, up or down, keeps the pitch class. *)
Lemma semitone_octaves (k : Z) (tonic_hz f : R) :
  0 < tonic_hz -> 0 < f ->
  semitone tonic_hz (powerRZ 2 k * f) = semitone tonic_hz f.
Proof.
  intros Ht Hf. unfold semitone.
  replace (powerRZ 2 k * f / tonic_hz) with (powerRZ 2 k * (f / tonic_hz))
    by (field; lra).
  rewrite log2_octaves by (apply Rdiv_lt_0_compat; assumption).
  replace (1200 * (IZR k + log2 (f / tonic_hz)))
    with (1200 * log2 (f / tonic_hz) + IZR k * 1200) by ring.
  now rewrite remainder_add_periods by lra.
Qed.

Lemma semitone_tonic_octaves (k : Z) (tonic_hz f : R) :
  0 < tonic_hz -> 0 < f ->
  semitone (powerRZ 2 k * tonic_hz) f = semitone tonic_hz f.
Proof.
  intros Ht Hf.
  assert (H2 : 0 < powerRZ 2 k) by (apply powerRZ_lt; lra).
  replace f with (powerRZ 2 k * (f / powerRZ 2 k)) at 1 by (field; lra).
  rewrite semitone_ratio by assumption.
  replace f with (powerRZ 2 k * (f / powerRZ 2 k)) at 2 by (field; lra).
  rewrite semitone_octaves; [reflexivity | assumption |].
  now apply Rdiv_lt_0_compat.
Qed.

(** X8.  Register independence, sample by sample: when every sample is
    moved by its own whole number of octaves, up or down, and the tonic by
    any whole number of octaves, the distribution is unchanged. *)
Theorem register_invariance (f0_clean moved : list R) (tonic_hz : R) (j : Z) :
  0 < tonic_hz ->
  Forall (fun f => 0 < f) f0_clean ->
  Forall2 (fun f g => exists k : Z, g = powerRZ 2 k * f) f0_clean moved ->
  extract_swara_distribution moved (powerRZ 2 j * tonic_hz) =
    extract_swara_distribution f0_clean tonic_hz.
Proof.
  intros Ht Hpos Hmoved. unfold extract_swara_distribution.
  replace (map (semitone (powerRZ 2 j * tonic_hz)) moved)
    with (map (semitone tonic_hz) f0_clean); [reflexivity |].
  induction Hmoved as [| f g l l' [k ->] _ IH]; [reflexivity |].
  inversion Hpos as [| ? ? Hf Hl]; subst. cbn [map].
  rewrite IH by assumption. f_equal.
  assert (0 < powerRZ 2 k * f)
    by (apply Rmult_lt_0_compat; [apply powerRZ_lt; lra | assumption]).
  rewrite semitone_tonic_octaves by assumption.
  now rewrite semitone_octaves.
Qed.

Lemma register_invariance_example :
  0 < 220
  /\ Forall (fun f => 0 < f) [220; 330]
  /\ Forall2 (fun f g => exists k : Z, g = powerRZ 2 k * f)
       [220; 330] [powerRZ 2 3 * 220; powerRZ 2 (-1) * 330]
  /\ extract_swara_distribution
       [powerRZ 2 3 * 220; powerRZ 2 (-1) * 330] (powerRZ 2 (-2) * 220) =
     extract_swara_distribution [220; 330] 220.
Proof.
  assert (H1 : 0 < 220) by lra.
  assert (H2 : Forall (fun f => 0 < f) [220; 330]) by (repeat constructor; lra).
  assert (H3 : Forall2 (fun f g => exists k : Z, g = powerRZ 2 k * f)
                 [220; 330] [powerRZ 2 3 * 220; powerRZ 2 (-1) * 330])
    by (repeat constructor; eexists; reflexivity).
  split; [exact H1 |]. split; [exact H2 |]. split; [exact H3 |].
  exact (register_invariance _ _ 220 (-2) H1 H2 H3).
Defined.

(** ** The tonic estimator *)

Lemma fold_Rmax_in (l : list R) (x : R) :
  fold_left Rmax l x = x \/ In (fold_left Rmax l x) l.
Proof.
  revert x. induction l as [| y l IH]; intros x; cbn; [now left |].
  destruct (IH (Rmax x y)) as [E | E]; [| now right; right].
  rewrite E. unfold Rmax. destruct (Rle_dec x y); [now right; left | now left].
Qed.

Lemma amax_in (a : list R) : a <> [] -> In (amax a) a.
Proof.
  destruct a as [| x t]; [congruence | intros _]. cbn.
  destruct (fold_Rmax_in t x) as [E | E]; [left; now rewrite E | now right].
Qed.

Lemma amin_unique (a : list R) (m : R) :
  In m a -> Forall (fun y => m <= y) a -> amin a = m.
Proof.
  intros Hin Hle.
  assert (Ha : a <> []) by (intros ->; contradiction).
  pose proof (amin_in a Ha) as H1. pose proof (amin_le a) as H2.
  rewrite Forall_forall in Hle, H2.
  specialize (Hle _ H1). specialize (H2 _ Hin). lra.
Qed.

Lemma amax_unique (a : list R) (m : R) :
  In m a -> Forall (fun y => y <= m) a -> amax a = m.
Proof.
  intros Hin Hle.
  assert (Ha : a <> []) by (intros ->; contradiction).
  pose proof (amax_in a Ha) as H1. pose proof (amax_ge a) as H2.
  rewrite Forall_forall in Hle, H2.
  specialize (Hle _ H1). specialize (H2 _ Hin). lra.
Qed.




(** What [find_tonic] returns, given the histogram and its first modal
    bin. *)
Lemma find_tonic_unfold (hz_to_note : R -> option string) (l : list R)
    (hist : list Z) (bins : list R) (k : nat) (t : R) :
  histogram l 100 = Return (hist, bins) ->
  argmax hist = Return (Z.of_nat k) ->
  nth_error bins k = Some t ->
  find_tonic hz_to_note l =
    match hz_to_note t with
    | Some _ => Return t
    | None => Raise DisplayError
    end.
Proof.
  intros Hh Ha Hn. unfold find_tonic. rewrite Hh. cbn [bind].
  rewrite Ha. cbn [bind]. rewrite (index_nth _ _ _ Hn). cbn [bind].
  now destruct (hz_to_note t).
Qed.

(** When the samples are all one value, the modal bin is bin 50 of the
    widened range. *)
Lemma argmax_point (n : nat) :
  (0 < n)%nat ->
  argmax (map (fun k => Z.of_nat (count_occ Z.eq_dec (repeat 50%Z n)
                                            (Z.of_nat k)))
              (seq 0 100)) = Return 50%Z.
Proof.
  intros Hn.
  set (hist := map _ (seq 0 100)).
  assert (Hlen : List.length hist = 100%nat)
    by (unfold hist; now rewrite length_map, length_seq).
  destruct (argmax_first_max hist) as (k & m & Hk & Hnth & Hmax & _).
  { intros E. rewrite E in Hlen. discriminate. }
  assert (Hk100 : (k < 100)%nat)
    by (rewrite <- Hlen; apply nth_error_Some; congruence).
  assert (H50 : nth_error hist 50 = Some (Z.of_nat n)).
  { unfold hist. rewrite counts_nth by lia. do 2 f_equal.
    now apply count_occ_repeat_eq. }
  destruct (Nat.eq_dec k 50) as [-> | Hneq]; [exact Hk | exfalso].
  assert (Hz : nth_error hist k = Some 0%Z).
  { unfold hist. rewrite counts_nth by lia. f_equal.
    rewrite count_occ_repeat_neq; [reflexivity | lia]. }
  rewrite Hz in Hnth. injection Hnth as <-.
  specialize (Hmax _ _ H50). lia.
Qed.

Lemma bin_index_point (x : R) : bin_index (x - 1 / 2) (x + 1 / 2) 100 x = 50%Z.
Proof.
  unfold bin_index. rewrite INR_100.
  replace ((x - (x - 1 / 2)) / (x + 1 / 2 - (x - 1 / 2)) * 100)
    with (IZR 50) by (field; lra).
  now rewrite astype_int_IZR.
Qed.

Lemma all_equal_amin (l : list R) (x : R) :
  l <> [] -> Forall (eq x) l -> amin l = x /\ amax l = x.
Proof.
  intros Hne Hall.
  assert (Hin : In x l).
  { destruct l as [| y t]; [congruence |]. inversion Hall; subst. now left. }
  split; [apply amin_unique | apply amax_unique]; try assumption;
    eapply Forall_impl; try exact Hall; cbn; intros; subst; lra.
Qed.

(** The tonic of samples that are all one value is that value. *)
Lemma find_tonic_point (hz_to_note : R -> option string) (l : list R) (x : R) :
  l <> [] -> Forall (eq x) l ->
  find_tonic hz_to_note l =
    match hz_to_note x with
    | Some _ => Return x
    | None => Raise DisplayError
    end.
Proof.
  intros Hne Hall.
  destruct (all_equal_amin l x Hne Hall) as [Emin Emax].
  destruct (histogram_nonempty l 100 Hne) as (lo & hi & E & Hr & Hh); [lia |].
  assert (E' : outer_edges l = (x - 1 / 2, x + 1 / 2)).
  { unfold outer_edges. destruct l as [| y t]; [congruence |].
    rewrite Emin, Emax. destruct (Req_dec_T x x); [reflexivity | congruence]. }
  rewrite E' in E. injection E as <- <-.
  assert (Hidx : map (bin_index (x - 1 / 2) (x + 1 / 2) 100) l
                 = repeat 50%Z (List.length l)).
  { clear - Hall. induction Hall as [| y t <- _ IH]; [reflexivity |].
    cbn [map List.length repeat]. now rewrite bin_index_point, IH. }
  rewrite Hidx in Hh.
  apply (find_tonic_unfold hz_to_note l _ _ 50 x Hh).
  - apply argmax_point. destruct l; [congruence | cbn; lia].
  - rewrite linspace_nth by lia.
    change (100 + 1 - 1)%nat with 100%nat. rewrite INR_100.
    cbn [Nat.eqb]. f_equal.
    replace (INR 50) with 50 by (rewrite INR_IZR_INZ; reflexivity).
    field.
Qed.

(** The tonic of samples that are not all one value is an edge
    [min + k (max - min) / 100] with [k < 100]. *)
Lemma find_tonic_spread (hz_to_note : R -> option string) (l : list R) :
  amin l < amax l ->
  exists k : nat,
    (k < 100)%nat
    /\ argmax (map (fun k => Z.of_nat
                      (count_occ Z.eq_dec
                         (map (bin_index (amin l) (amax l) 100) l)
                         (Z.of_nat k)))
                   (seq 0 100)) = Return (Z.of_nat k)
    /\ find_tonic hz_to_note l =
         let t := INR k * ((amax l - amin l) / 100) + amin l in
         match hz_to_note t with
         | Some _ => Return t
         | None => Raise DisplayError
         end.
Proof.
  intros Hlt.
  assert (Hne : l <> []) by (intros ->; cbn in Hlt; lra).
  destruct (histogram_nonempty l 100 Hne) as (lo & hi & E & Hr & Hh); [lia |].
  assert (E' : outer_edges l = (amin l, amax l)).
  { unfold outer_edges. destruct l as [| y t]; [congruence |].
    destruct (Req_dec_T _ _); [lra | reflexivity]. }
  rewrite E' in E. injection E as <- <-.
  set (hist := map _ (seq 0 100)) in *.
  assert (Hlen : List.length hist = 100%nat)
    by (unfold hist; now rewrite length_map, length_seq).
  destruct (argmax_first_max hist) as (k & m & Hk & Hnth & _).
  { intros E. rewrite E in Hlen. discriminate. }
  assert (Hk100 : (k < 100)%nat)
    by (rewrite <- Hlen; apply nth_error_Some; congruence).
  exists k. split; [exact Hk100 |]. split; [exact Hk |].
  apply (find_tonic_unfold hz_to_note l _ _ k _ Hh Hk).
  rewrite linspace_nth by lia.
  change (100 + 1 - 1)%nat with 100%nat. rewrite INR_100.
  replace (k =? 100)%nat with false by (symmetry; apply Nat.eqb_neq; lia).
  reflexivity.
Qed.

Lemma amin_scale (c : R) (l : list R) :
  0 < c -> l <> [] -> amin (map (Rmult c) l) = c * amin l.
Proof.
  intros Hc Hne. apply amin_unique.
  - apply in_map. now apply amin_in.
  - rewrite Forall_map. eapply Forall_impl; [| apply amin_le].
    cbn. intros y Hy. now apply Rmult_le_compat_l; [lra |].
Qed.

Lemma amax_scale (c : R) (l : list R) :
  0 < c -> l <> [] -> amax (map (Rmult c) l) = c * amax l.
Proof.
  intros Hc Hne. apply amax_unique.
  - apply in_map. now apply amax_in.
  - rewrite Forall_map. eapply Forall_impl; [| apply amax_ge].
    cbn. intros y Hy. now apply Rmult_le_compat_l; [lra |].
Qed.

Lemma bin_index_scale (c lo hi : R) (n : nat) (x : R) :
  0 < c -> lo < hi ->
  bin_index (c * lo) (c * hi) n (c * x) = bin_index lo hi n x.
Proof.
  intros Hc Hlh. unfold bin_index.
  replace (c * x - c * lo) with (c * (x - lo)) by ring.
  replace (c * hi - c * lo) with (c * (hi - lo)) by ring.
  replace (c * (x - lo) / (c * (hi - lo))) with ((x - lo) / (hi - lo))
    by (field; lra).
  reflexivity.
Qed.

Section Tonic.

Variable hz_to_note : R -> option string.
Hypothesis hz_to_note_positive : forall x, 0 < x -> hz_to_note x <> None.


(** The tonic follows a transposition of the samples. *)
Lemma find_tonic_scaled (c : R) (l : list R) :
  0 < c -> l <> [] -> Forall (fun f => 0 < f) l ->
  exists t,
    find_tonic hz_to_note l = Return t /\ 0 < t
    /\ find_tonic hz_to_note (map (Rmult c) l) = Return (c * t).
Proof.
  intros Hc Hne Hpos.
  assert (Hne' : map (Rmult c) l <> [])
    by (destruct l; [congruence | discriminate]).
  assert (Hmin : 0 < amin l).
  { rewrite Forall_forall in Hpos. apply Hpos. now apply amin_in. }
  destruct (Rle_lt_or_eq_dec _ _ (amin_le_amax l Hne)) as [Hlt | Heq].
  - destruct (find_tonic_spread hz_to_note l Hlt) as (k & Hk & Ha & E).
    assert (Hlt' : amin (map (Rmult c) l) < amax (map (Rmult c) l)).
    { rewrite amin_scale, amax_scale by assumption.
      now apply Rmult_lt_compat_l. }
    destruct (find_tonic_spread hz_to_note _ Hlt') as (k' & Hk' & Ha' & E').
    rewrite amin_scale, amax_scale in Ha', E' by assumption.
    rewrite map_map in Ha'.
    rewrite (map_ext (fun x => bin_index (c * amin l) (c * amax l) 100 (c * x))
                     (bin_index (amin l) (amax l) 100)) in Ha'
      by (intros x; now apply bin_index_scale).
    rewrite Ha in Ha'. injection Ha' as Ekk. apply Nat2Z.inj in Ekk.
    subst k'. cbv zeta in E, E'.
    set (t := INR k * ((amax l - amin l) / 100) + amin l) in *.
    replace (INR k * ((c * amax l - c * amin l) / 100) + c * amin l)
      with (c * t) in E' by (unfold t; field).
    assert (Ht : 0 < t).
    { pose proof (pos_INR k). unfold t. nra. }
    assert (Hct : 0 < c * t) by now apply Rmult_lt_0_compat.
    exists t. split; [| split; [exact Ht |]].
    + rewrite E. pose proof (hz_to_note_positive t Ht).
      now destruct (hz_to_note t).
    + rewrite E'. pose proof (hz_to_note_positive _ Hct).
      now destruct (hz_to_note (c * t)).
  - assert (Hall : Forall (eq (amin l)) l).
    { pose proof (amin_le l) as H1. pose proof (amax_ge l) as H2.
      rewrite Forall_forall in *. intros y Hy.
      specialize (H1 y Hy). specialize (H2 y Hy). lra. }
    assert (Hall' : Forall (eq (c * amin l)) (map (Rmult c) l)).
    { rewrite Forall_map. eapply Forall_impl; [| exact Hall].
      cbn. intros y <-. reflexivity. }
    assert (Hcm : 0 < c * amin l) by now apply Rmult_lt_0_compat.
    exists (amin l). split; [| split; [exact Hmin |]].
    + rewrite (find_tonic_point hz_to_note l (amin l) Hne Hall).
      pose proof (hz_to_note_positive _ Hmin).
      now destruct (hz_to_note (amin l)).
    + rewrite (find_tonic_point hz_to_note _ (c * amin l) Hne' Hall').
      pose proof (hz_to_note_positive _ Hcm).
      now destruct (hz_to_note (c * amin l)).
Qed.

(** X9.  The tonic estimate is equivariant under transposition: on
    non-empty positive samples, multiplying every sample by a positive
    factor multiplies the estimated tonic by that factor. *)
Theorem find_tonic_transposes (c : R) (l : list R) :
  0 < c -> l <> [] -> Forall (fun f => 0 < f) l ->
  exists t,
    find_tonic hz_to_note l = Return t /\ 0 < t
    /\ find_tonic hz_to_note (map (Rmult c) l) = Return (c * t).
Proof. apply find_tonic_scaled. Qed.





End Tonic.

Lemma find_tonic_transposes_example :
  let hz_to_note := fun _ : R => Some "A"%string in
  (forall x, 0 < x -> hz_to_note x <> None)
  /\ 0 < 2 /\ [220; 330] <> [] /\ Forall (fun f => 0 < f) [220; 330]
  /\ exists t,
       find_tonic hz_to_note [220; 330] = Return t /\ 0 < t
       /\ find_tonic hz_to_note (map (Rmult 2) [220; 330]) = Return (2 * t).
Proof.
  cbv zeta.
  assert (H0 : forall x : R, 0 < x -> Some "A"%string <> None)
    by (intros; discriminate).
  assert (H1 : 0 < 2) by lra.
  assert (H2 : [220; 330] <> []) by discriminate.
  assert (H3 : Forall (fun f => 0 < f) [220; 330])
    by (repeat constructor; lra).
  split; [exact H0 |]. split; [exact H1 |]. split; [exact H2 |].
  split; [exact H3 |].
  exact (find_tonic_transposes (fun _ => Some "A"%string) H0 2 [220; 330]
           H1 H2 H3).
Defined.




End DetectorExtras.

(** * Further properties of the matcher *)

Module RankingExtras.

Import Melakarta Numpy NumpyFacts Detector Generator RankingFacts.
Open Scope R_scope.

(** ** The ranking is a reordering of the score table *)

Lemma stable_sort_perm {A : Type} (lt : A -> A -> bool) (l : list A) :
  Permutation (stable_sort lt l) l.
Proof.
  unfold stable_sort.
  assert (G : forall acc,
             Permutation (fold_left (fun acc x => insert_stable lt x acc) l acc)
                         (acc ++ l)).
  { induction l as [| x t IH]; intros acc; cbn.
    - now rewrite app_nil_r.
    - rewrite IH, (insert_stable_perm lt x acc). apply Permutation_middle. }
  apply (G []).
Qed.

Lemma sorted_perm {A K : Type} (key : A -> K) (klt : K -> K -> bool)
    (reverse : bool) (l : list A) :
  Permutation (sorted key klt reverse l) l.
Proof.
  unfold sorted. destruct reverse.
  - rewrite <- Permutation_rev, stable_sort_perm. symmetry.
    apply Permutation_rev.
  - apply stable_sort_perm.
Qed.

Lemma dict_set_Forall {V : Type} (P : string * V -> Prop)
    (d : list (string * V)) (k : string) (v : V) :
  Forall P d -> (forall k', P (k', v)) -> Forall P (dict_set d k v).
Proof.
  intros H Hv. induction H as [| [k' v'] d Hp Hd IH]; cbn.
  - repeat constructor. apply Hv.
  - destruct (String.eqb k' k); constructor;
      first [apply Hv | assumption].
Qed.

Lemma clip_bounds (q : R) : -1 <= clip q (-1) 1 <= 1.
Proof.
  unfold clip, Rmin, Rmax.
  destruct (Rle_dec q (-1)); destruct (Rle_dec _ 1); lra.
Qed.

Lemma corrcoef01_bounds (x y : ndarray) (s : option R) :
  corrcoef01 x y = Return s ->
  match s with Some r => -1 <= r <= 1 | None => True end.
Proof.
  unfold corrcoef01. destruct x as [x |], y as [y |];
    try (intros H; injection H as <-; exact I).
  destruct (List.length x =? List.length y)%nat; [| discriminate].
  repeat match goal with
         | |- context [if ?c then _ else _] => destruct c
         end;
    intros H; injection H as <-; try exact I. apply clip_bounds.
Qed.

Lemma score_all_Forall (P : option R -> Prop)
    (patterns : list (string * raga_info)) (x : ndarray) :
  (forall y s, corrcoef01 x y = Return s -> P s) ->
  forall acc scs,
    Forall (fun e => P (snd e)) acc ->
    score_all patterns x acc = Return scs ->
    Forall (fun e => P (snd e)) scs.
Proof.
  intros HP. induction patterns as [| [n info] rest IH]; intros acc scs Ha E.
  - cbn in E. now injection E as <-.
  - cbn [score_all] in E.
    destruct (ideal_profile (key_intervals info)) as [prof | e];
      [| discriminate].
    cbn [bind] in E.
    destruct (corrcoef01 x prof) as [s | e] eqn:Ec; [| discriminate].
    cbn [bind] in E. apply (IH _ _ (dict_set_Forall _ _ _ _ Ha
                                      (fun _ => HP _ _ Ec)) E).
Qed.

(** X13.  Whatever the store and the observed array, every score of a
    ranking that [match_raga] returns is NaN or a number between -1 and
    1. *)
Theorem scores_within_bounds (patterns : list (string * raga_info))
    (x : ndarray) (ranked : list (string * option R)) :
  match_raga_on patterns x = Return ranked ->
  Forall (fun e => match snd e with
                   | Some r => -1 <= r <= 1
                   | None => True
                   end) ranked.
Proof.
  unfold match_raga_on. intros E.
  destruct (score_all patterns x []) as [scs | e] eqn:Es; [| discriminate].
  cbn [bind] in E. injection E as <-.
  apply (Permutation_Forall
           (Permutation_sym (sorted_perm snd score_lt true scs))).
  apply (score_all_Forall _ patterns x (corrcoef01_bounds x) [] scs);
    [constructor | exact Es].
Qed.

Lemma scores_within_bounds_uniform :
  match_raga_on RAGA_PATTERNS (Arr (repeat (1 / 12) 12)) =
    Return [ ("Mohanam"%string, None); ("Mayamalavagowla"%string, None);
             ("Shankarabharanam"%string, None); ("Kalyani"%string, None);
             ("Bhairavi"%string, None) ]
  /\ Forall (fun e : string * option R =>
               match snd e with
               | Some r => -1 <= r <= 1
               | None => True
               end)
       [ ("Mohanam"%string, None); ("Mayamalavagowla"%string, None);
         ("Shankarabharanam"%string, None); ("Kalyani"%string, None);
         ("Bhairavi"%string, None) ].
Proof.
  split; [exact uniform_distribution_all_nan |].
  exact (scores_within_bounds RAGA_PATTERNS _ _ uniform_distribution_all_nan).
Defined.

(** ** How matching fails *)

Lemma setitem_outcome (v : list R) (i : Z) (x : R) :
  ((- Z.of_nat (List.length v) <= i < Z.of_nat (List.length v))%Z ->
     exists v', setitem v i x = Return v' /\ List.length v' = List.length v)
  /\ (~ (- Z.of_nat (List.length v) <= i < Z.of_nat (List.length v))%Z ->
        setitem v i x = Raise IndexError).
Proof.
  unfold setitem. split; intros H.
  - destruct (Z.ltb_spec i 0).
    + replace (i + Z.of_nat (List.length v) <? 0)%Z with false
        by (symmetry; apply Z.ltb_ge; lia).
      replace (Z.of_nat (List.length v) <=? i + Z.of_nat (List.length v))%Z
        with false by (symmetry; apply Z.leb_gt; lia).
      cbn [orb]. eexists. split; [reflexivity | apply update_length].
    + replace (i <? 0)%Z with false by (symmetry; apply Z.ltb_ge; lia).
      replace (Z.of_nat (List.length v) <=? i)%Z
        with false by (symmetry; apply Z.leb_gt; lia).
      cbn [orb]. eexists. split; [reflexivity | apply update_length].
  - destruct (Z.ltb_spec i 0).
    + replace (i + Z.of_nat (List.length v) <? 0)%Z with true
        by (symmetry; apply Z.ltb_lt; lia).
      reflexivity.
    + replace (i <? 0)%Z with false by (symmetry; apply Z.ltb_ge; lia).
      replace (Z.of_nat (List.length v) <=? i)%Z
        with true by (symmetry; apply Z.leb_le; lia).
      reflexivity.
Qed.

(** The marking loop stops with [IndexError] at the first interval outside
    [-len, len), and otherwise returns an array of the same length. *)
Lemma mark_outcome (intervals : list Z) (v : list R) :
  (Forall (fun i => - Z.of_nat (List.length v) <= i
                    < Z.of_nat (List.length v))%Z intervals ->
     exists v', mark v intervals = Return v'
                /\ List.length v' = List.length v)
  /\ (Exists (fun i => ~ (- Z.of_nat (List.length v) <= i
                          < Z.of_nat (List.length v))%Z) intervals ->
        mark v intervals = Raise IndexError).
Proof.
  revert v. induction intervals as [| i rest IH]; intros v.
  - split; [intros _; now exists v | intros H; inversion H].
  - destruct (setitem_outcome v i 1) as [Hin Hout].
    split; intros H.
    + inversion H as [| ? ? Hi Hrest]; subst.
      destruct (Hin Hi) as (v1 & E1 & L1). cbn [mark]. rewrite E1. cbn [bind].
      rewrite <- L1 in Hrest. destruct (proj1 (IH v1) Hrest) as (v' & E & L).
      exists v'. split; [exact E | congruence].
    + cbn [mark].
      destruct (Z_le_dec (- Z.of_nat (List.length v)) i) as [Hlo | Hlo];
        [destruct (Z_lt_dec i (Z.of_nat (List.length v))) as [Hhi | Hhi] |];
        try (rewrite Hout by lia; reflexivity).
      destruct (Hin (conj Hlo Hhi)) as (v1 & E1 & L1).
      rewrite E1. cbn [bind]. apply (proj2 (IH v1)).
      rewrite L1. inversion H; subst; [lia | assumption].
Qed.

Lemma ideal_profile_outcome (intervals : list Z) :
  (Forall (fun i => -12 <= i < 12)%Z intervals ->
     exists prof,
       ideal_profile intervals = Return prof
       /\ (prof = NaNs \/ exists y, prof = Arr y /\ List.length y = 12%nat))
  /\ (Exists (fun i => ~ (-12 <= i < 12)%Z) intervals ->
        ideal_profile intervals = Raise IndexError).
Proof.
  destruct (mark_outcome intervals (repeat 0 12)) as [Hin Hout].
  rewrite repeat_length in Hin, Hout. change (Z.of_nat 12) with 12%Z in *.
  unfold ideal_profile. split; intros H.
  - destruct (Hin H) as (v & E & L). rewrite E. cbn [bind].
    eexists. split; [reflexivity |]. unfold divide.
    destruct (Req_dec_T (sum v) 0); [now left | right].
    eexists. split; [reflexivity | now rewrite length_map].
  - now rewrite (Hout H).
Qed.

Lemma corrcoef01_returns (d : list R) (prof : ndarray) :
  List.length d = 12%nat ->
  prof = NaNs \/ (exists y, prof = Arr y /\ List.length y = 12%nat) ->
  exists s, corrcoef01 (Arr d) prof = Return s.
Proof.
  intros Ld [-> | (y & -> & Ly)]; [now exists None |].
  unfold corrcoef01. rewrite Ld, Ly. cbn [Nat.eqb].
  repeat match goal with
         | |- context [if ?c then _ else _] => destruct c
         end; eauto.
Qed.

Lemma score_all_outcome (patterns : list (string * raga_info)) (d : list R) :
  List.length d = 12%nat ->
  forall acc,
    (Forall (fun p => Forall (fun i => -12 <= i < 12)%Z
                             (key_intervals (snd p))) patterns ->
       exists scs, score_all patterns (Arr d) acc = Return scs)
    /\ (Exists (fun p => Exists (fun i => ~ (-12 <= i < 12)%Z)
                                (key_intervals (snd p))) patterns ->
          score_all patterns (Arr d) acc = Raise IndexError).
Proof.
  intros Ld. induction patterns as [| [n info] rest IH]; intros acc.
  - split; [intros _; now exists acc | intros H; inversion H].
  - destruct (ideal_profile_outcome (key_intervals info)) as [Hin Hout].
    split; intros H; cbn [score_all].
    + inversion H as [| ? ? Hp Hrest]; subst. cbn [snd] in Hp.
      destruct (Hin Hp) as (prof & E & Hshape). rewrite E. cbn [bind].
      destruct (corrcoef01_returns d prof Ld Hshape) as (s & Ec).
      rewrite Ec. cbn [bind]. now apply IH.
    + destruct (ideal_profile (key_intervals info)) as [prof | e] eqn:E.
      * cbn [bind].
        assert (Hp : Forall (fun i => -12 <= i < 12)%Z (key_intervals info)).
        { apply Forall_forall. intros i Hi.
          destruct (Z_le_dec (-12) i) as [? | Hlo];
            [destruct (Z_lt_dec i 12) as [? | Hhi]; [lia |] |];
            exfalso;
            assert (X : Exists (fun i => ~ (-12 <= i < 12)%Z)
                          (key_intervals info))
              by (apply Exists_exists; exists i; split; [assumption | lia]);
            pose proof (Hout X); congruence. }
        destruct (Hin Hp) as (prof' & E' & Hshape).
        assert (prof' = prof) as -> by congruence.
        destruct (corrcoef01_returns d prof Ld Hshape) as (s & Ec).
        rewrite Ec. cbn [bind]. apply IH.
        inversion H as [? ? Hhd | ? ? Htl]; subst; [| assumption].
        cbn [snd] in Hhd. pose proof (Hout Hhd). congruence.
      * cbn [bind].
        destruct (Forall_Exists_dec (fun i => (-12 <= i < 12)%Z)
                    (fun i => ltac:(destruct (Z_le_dec (-12) i);
                                    [destruct (Z_lt_dec i 12) |];
                                    first [left; lia | right; lia]))
                    (key_intervals info)) as [Hp | Hx].
        -- destruct (Hin Hp) as (prof' & E' & _). congruence.
        -- pose proof (Hout Hx). congruence.
Qed.

(** X14.  On a 12-bin observed array, matching fails exactly on a
    malformed stored profile: if some stored interval lies outside -12..11
    the call raises [IndexError] (during matching, whatever the observed
    values), and if every stored interval lies in -12..11 it returns a
    ranking.  An empty interval list is no failure. *)
Theorem matching_fails_on_malformed_profile
    (patterns : list (string * raga_info)) (d : list R) :
  List.length d = 12%nat ->
  (Exists (fun p => Exists (fun i => ~ (-12 <= i < 12)%Z)
                           (key_intervals (snd p))) patterns ->
     match_raga_on patterns (Arr d) = Raise IndexError)
  /\ (Forall (fun p => Forall (fun i => -12 <= i < 12)%Z
                              (key_intervals (snd p))) patterns ->
        exists ranked, match_raga_on patterns (Arr d) = Return ranked).
Proof.
  intros Ld. destruct (score_all_outcome patterns d Ld []) as [Hok Hbad].
  unfold match_raga_on. split; intros H.
  - now rewrite (Hbad H).
  - destruct (Hok H) as (scs & E). rewrite E. cbn [bind]. eauto.
Qed.

Lemma matching_fails_on_malformed_profile_example :
  let bad := [("x"%string, Build_raga_info [] [0; 12]%Z ""%string)] in
  List.length major_scale_distribution = 12%nat
  /\ ((Exists (fun p => Exists (fun i => ~ (-12 <= i < 12)%Z)
                               (key_intervals (snd p))) bad ->
         match_raga_on bad (Arr major_scale_distribution) = Raise IndexError)
      /\ (Forall (fun p => Forall (fun i => -12 <= i < 12)%Z
                                  (key_intervals (snd p))) bad ->
            exists ranked,
              match_raga_on bad (Arr major_scale_distribution) = Return ranked)).
Proof.
  cbv zeta. split; [reflexivity |].
  exact (matching_fails_on_malformed_profile _ major_scale_distribution
           eq_refl).
Defined.

(** X15.  An observed array whose length is not 12 makes [match_raga]
    raise [ValueError]: the first stored profile cannot be stacked with
    it. *)
Theorem wrong_length_raises (d : list R) :
  List.length d <> 12%nat ->
  match_raga (Arr d) = Raise ValueError.
Proof.
  intros Ld. unfold match_raga, match_raga_on, RAGA_PATTERNS.
  cbn [score_all key_intervals].
  destruct RAGA_PATTERNS_usable as [_ Hu].
  inversion Hu as [| ? ? Hm _]; subst. cbn [snd key_intervals] in Hm.
  destruct (ideal_profile_spec _ Hm) as (y & w & Ey & Ly & _).
  rewrite Ey. cbn [bind]. unfold corrcoef01. rewrite Ly.
  replace (List.length d =? 12)%nat with false
    by (symmetry; now apply Nat.eqb_neq).
  reflexivity.
Qed.

Lemma wrong_length_raises_example :
  List.length [1] <> 12%nat /\ match_raga (Arr [1]) = Raise ValueError.
Proof.
  assert (H : List.length [1] <> 12%nat) by (cbn; lia).
  split; [exact H | exact (wrong_length_raises [1] H)].
Defined.

(** ** Degenerate observations *)

(** The score table, when every profile and every correlation is
    defined: one entry per profile, in store order. *)
Lemma score_all_table (patterns : list (string * raga_info)) (x : ndarray) :
  forall scs acc,
    NoDup (map fst acc ++ map fst patterns) ->
    Forall2 (fun p e =>
               fst e = fst p
               /\ exists prof,
                    ideal_profile (key_intervals (snd p)) = Return prof
                    /\ corrcoef01 x prof = Return (snd e))
            patterns scs ->
    score_all patterns x acc = Return (acc ++ scs)%list.
Proof.
  induction patterns as [| [n info] rest IH]; intros scs acc ND F.
  - inversion F; subst. cbn. now rewrite app_nil_r.
  - inversion F as [| ? [en es] ? scs' [En (prof & Ep & Ec)] F']; subst.
    cbn [fst snd] in *. subst en.
    cbn [score_all]. rewrite Ep. cbn [bind]. rewrite Ec. cbn [bind].
    cbn [map fst] in ND.
    rewrite dict_set_fresh.
    2:{ apply NoDup_remove_2 in ND. intros Hin. apply ND.
        apply in_or_app. now left. }
    rewrite (IH scs' (acc ++ [(n, es)])%list).
    + now rewrite <- app_assoc.
    + rewrite map_app. cbn. now rewrite <- app_assoc.
    + exact F'.
Qed.

Lemma insert_stable_nan (x : string * option R) (l : list (string * option R)) :
  snd x = None ->
  insert_stable (fun a b => score_lt (snd a) (snd b)) x l = (l ++ [x])%list.
Proof.
  intros Hx. induction l as [| y t IH]; cbn; [reflexivity |].
  rewrite Hx. cbn [score_lt]. now rewrite IH.
Qed.

(** Sorting a table whose scores are all NaN changes nothing. *)
Lemma sorted_all_nan (l : list (string * option R)) :
  Forall (fun e => snd e = None) l ->
  sorted snd score_lt true l = l.
Proof.
  intros H. unfold sorted, stable_sort.
  assert (G : forall m acc : list (string * option R),
             Forall (fun e => snd e = None) m ->
             fold_left (fun acc x =>
                          insert_stable (fun a b => score_lt (snd a) (snd b))
                                        x acc) m acc = (acc ++ m)%list).
  { induction m as [| x t IH]; intros acc Hm; cbn.
    - now rewrite app_nil_r.
    - inversion Hm; subst. rewrite insert_stable_nan by assumption.
      rewrite IH by assumption. now rewrite <- app_assoc. }
  rewrite G by (now apply Forall_rev). cbn. apply rev_involutive.
Qed.

Lemma sum_constant (c : R) (d : list R) :
  Forall (eq c) d -> sum d = INR (List.length d) * c.
Proof.
  unfold sum. induction 1 as [| y t <- _ IH]; [cbn; ring |].
  cbn [fold_right]. rewrite IH.
  change (List.length (c :: t)) with (S (List.length t)).
  rewrite S_INR. ring.
Qed.

Lemma dot_zero (u : list R) : Forall (eq 0) u -> dot u u = 0.
Proof.
  induction 1 as [| y t <- _ IH]; [reflexivity |].
  cbn [dot]. rewrite IH. ring.
Qed.

(** A constant 12-bin array has no spread: its score against any 12-bin
    array is NaN. *)
Lemma corrcoef01_constant (c : R) (d y : list R) :
  List.length d = 12%nat -> Forall (eq c) d -> List.length y = 12%nat ->
  corrcoef01 (Arr d) (Arr y) = Return None.
Proof.
  intros Ld Hc Ly. unfold corrcoef01. rewrite Ld, Ly. cbn [Nat.eqb].
  rewrite fact_12. destruct (Rle_dec 11 0) as [? | _]; [lra |].
  assert (Hm : mean d = c).
  { unfold mean. rewrite (sum_constant c d Hc), Ld.
    replace (INR 12) with 12 by (rewrite INR_IZR_INZ; reflexivity). field. }
  assert (H0 : dot (map (fun a => a - mean d) d) (map (fun a => a - mean d) d)
               = 0).
  { apply dot_zero. rewrite Forall_map. eapply Forall_impl; [| exact Hc].
    cbn. intros a <-. rewrite Hm. ring. }
  rewrite H0. replace (0 / 11) with 0 by lra. rewrite sqrt_0.
  destruct (Req_dec_T 0 0) as [_ | N]; [reflexivity | contradiction].
Qed.

(** X16.  A degenerate observation is absorbed, not reported: on the
    array of NaN (what an empty input would give) and on any constant
    12-bin array, [match_raga] over a store with distinct names and
    intervals in -12..11 returns every profile with the score NaN, in the
    insertion order of the store. *)
Theorem degenerate_observation_all_nan
    (patterns : list (string * raga_info)) (x : ndarray) :
  NoDup (map fst patterns) ->
  Forall (fun p => Forall (fun i => -12 <= i < 12)%Z
                          (key_intervals (snd p))) patterns ->
  x = NaNs
  \/ (exists c d, x = Arr d /\ List.length d = 12%nat /\ Forall (eq c) d) ->
  match_raga_on patterns x =
    Return (map (fun p => (fst p, @None R)) patterns).
Proof.
  intros ND Hr Hx.
  assert (F : Forall2 (fun p e =>
                fst e = fst p
                /\ exists prof,
                     ideal_profile (key_intervals (snd p)) = Return prof
                     /\ corrcoef01 x prof = Return (snd e))
              patterns (map (fun p => (fst p, @None R)) patterns)).
  { clear ND. induction Hr as [| p rest Hp _ IH]; cbn [map]; constructor;
      [| exact IH].
    split; [reflexivity |]. cbn [snd].
    destruct (proj1 (ideal_profile_outcome _) Hp) as (prof & E & Hshape).
    exists prof. split; [exact E |].
    destruct Hx as [-> | (c & d & -> & Ld & Hc)]; [reflexivity |].
    destruct Hshape as [-> | (y & -> & Ly)]; [reflexivity |].
    now apply (corrcoef01_constant c). }
  unfold match_raga_on.
  rewrite (score_all_table patterns x _ [] ND F). cbn [app bind].
  rewrite sorted_all_nan; [reflexivity |].
  apply Forall_forall. intros e He. apply in_map_iff in He.
  now destruct He as (p & <- & _).
Qed.

Lemma degenerate_observation_all_nan_example :
  NoDup (map fst RAGA_PATTERNS)
  /\ Forall (fun p => Forall (fun i => -12 <= i < 12)%Z
                             (key_intervals (snd p))) RAGA_PATTERNS
  /\ (@NaNs = NaNs
      \/ (exists c d, NaNs = Arr d /\ List.length d = 12%nat
                      /\ Forall (eq c) d))
  /\ match_raga_on RAGA_PATTERNS NaNs =
       Return (map (fun p => (fst p, @None R)) RAGA_PATTERNS).
Proof.
  assert (H1 : NoDup (map fst RAGA_PATTERNS)) by apply RAGA_PATTERNS_usable.
  assert (H2 : Forall (fun p => Forall (fun i => -12 <= i < 12)%Z
                                       (key_intervals (snd p))) RAGA_PATTERNS)
    by (repeat constructor; lia).
  assert (H3 : NaNs = NaNs
               \/ (exists c d, NaNs = Arr d /\ List.length d = 12%nat
                               /\ Forall (eq c) d)) by (now left).
  split; [exact H1 |]. split; [exact H2 |]. split; [exact H3 |].
  exact (degenerate_observation_all_nan RAGA_PATTERNS NaNs H1 H2 H3).
Defined.

(** ** Exact matches in a store with repeated class sets *)

(** The reference distribution depends on the interval list only through
    its set of pitch classes. *)
Lemma same_classes_same_reference (a b : list Z) :
  Forall (fun i => 0 <= i < 12)%Z a -> Forall (fun i => 0 <= i < 12)%Z b ->
  same_classes a b -> ideal_profile a = ideal_profile b.
Proof.
  intros Ha Hb Hs. unfold ideal_profile.
  destruct (mark_spec a (repeat 0 12)) as (va & Ea & La & Na);
    [now rewrite repeat_length |].
  destruct (mark_spec b (repeat 0 12)) as (vb & Eb & Lb & Nb);
    [now rewrite repeat_length |].
  rewrite Ea, Eb. replace vb with va; [reflexivity |].
  apply (nth_ext _ _ 0 0); [congruence |].
  intros k _. rewrite Na, Nb.
  now rewrite (same_classes_existsb a b Hs).
Qed.

(** X17.  When the observed distribution is exactly the reference of a
    stored profile, the ranking is headed, with score 1, by the first
    profile in insertion order that has the same set of pitch classes:
    the observed profile itself only if no earlier profile shares its
    classes. *)
Theorem exact_match_heads_ranking (patterns : list (string * raga_info))
    (name : string) (info : raga_info) (x : list R) :
  usable_store patterns ->
  In (name, info) patterns ->
  ideal_profile (key_intervals info) = Return (Arr x) ->
  exists name' info' rest,
    match_raga_on patterns (Arr x) = Return ((name', Some 1) :: rest)
    /\ In (name', info') patterns
    /\ same_classes (key_intervals info') (key_intervals info)
    /\ forall n i, In (n, i) patterns ->
         same_classes (key_intervals i) (key_intervals info) ->
         (store_index patterns name' <= store_index patterns n)%Z.
Proof.
  intros Us Hin Eobs. pose proof Us as [ND Hu].
  rewrite Forall_forall in Hu.
  pose proof (Hu _ Hin) as Up. cbn [snd] in Up.
  destruct (ideal_profile_spec _ Up) as (x' & w & Ex & Lx & Hw & Hx).
  rewrite Eobs in Ex. injection Ex as <-.
  pose proof (reference_spread _ x w (mean x) Up Lx Hw Hx) as Vx.
  destruct (match_raga_on_ranked patterns x Us Lx)
    as (scs & ranked & Em & F & P & S).
  set (X0 := map (fun a => a - mean x) x) in *.
  assert (Hsd : sqrt (dot X0 X0 / 11) <> 0).
  { assert (0 < sqrt (dot X0 X0 / 11)); [| lra].
    apply sqrt_lt_R0. apply Rdiv_lt_0_compat; lra. }
  assert (Hentry : forall p e,
             In p patterns ->
             (fst e = fst p
              /\ exists y, ideal_profile (key_intervals (snd p)) = Return (Arr y)
                           /\ corrcoef01 (Arr x) (Arr y) = Return (snd e)) ->
             (same_classes (key_intervals (snd p)) (key_intervals info) ->
                snd e = Some 1)
             /\ (~ same_classes (key_intervals (snd p)) (key_intervals info) ->
                   exists r, snd e = Some r /\ r < 1)).
  { intros [n' i'] [en es] Hp (En & y & Ey & Ec). cbn [fst snd] in *.
    pose proof (Hu _ Hp) as Up'. cbn [snd] in Up'.
    destruct (ideal_profile_spec _ Up') as (y' & w' & Ey' & Ly & Hw' & Hy).
    rewrite Ey in Ey'. injection Ey' as <-.
    pose proof (reference_spread _ y w' (mean y) Up' Ly Hw' Hy) as Vy.
    rewrite (corrcoef01_value x y Lx Ly Vy) in Ec. cbv zeta in Ec.
    fold X0 in Ec.
    destruct (Req_dec_T (sqrt (dot X0 X0 / 11)) 0) as [? | _];
      [contradiction |].
    injection Ec as <-. split.
    - intros Hs.
      assert (Eq : ideal_profile (key_intervals i')
                   = ideal_profile (key_intervals info)).
      { apply same_classes_same_reference;
          [apply Up' | apply Up | exact Hs]. }
      rewrite Ey, Eobs in Eq. injection Eq as ->. fold X0.
      rewrite pearson_self by lra. now rewrite clip_1.
    - intros Hn. eexists. split; [reflexivity |].
      apply clip_lt_1.
      now apply (different_classes_below_1 (key_intervals info)
                   (key_intervals i') x y w w'). }
  assert (Hrefl : same_classes (key_intervals info) (key_intervals info))
    by (intros k; tauto).
  destruct (Forall2_in_left _ _ _ _ F Hin) as (e0 & He0 & R0).
  pose proof (proj1 (Hentry _ _ Hin R0) Hrefl) as Htop.
  destruct ranked as [| h rest].
  { apply Permutation_nil in P. subst scs. contradiction. }
  assert (Hh : In h scs) by (apply (Permutation_in _ P); now left).
  destruct (Forall2_in_right _ _ _ _ F Hh) as ([nh ih] & Hp & Rp).
  destruct (Hentry _ _ Hp Rp) as [Hsame Hdiff]. cbn [snd fst] in *.
  inversion S as [| ? ? _ Fh]; subst. rewrite Forall_forall in Fh.
  destruct (classic (same_classes (key_intervals ih) (key_intervals info)))
    as [Hs | Hs].
  - exists nh, ih, rest.
    assert (Eh : h = (nh, Some 1)).
    { destruct h as [a b]. cbn in *. destruct Rp as [-> _].
      now rewrite (Hsame Hs). }
    subst h. split; [exact Em |]. split; [exact Hp |]. split; [exact Hs |].
    intros n i Hni Hsi.
    destruct (Forall2_in_left _ _ _ _ F Hni) as (e & He & Re).
    pose proof (proj1 (Hentry _ _ Hni Re) Hsi) as Esc.
    destruct Re as [En _]. cbn [fst] in En.
    apply (Permutation_in _ (Permutation_sym P)) in He.
    destruct He as [<- | Hrest]; [cbn in En; subst; lia |].
    specialize (Fh _ Hrest). unfold ranks_before in Fh.
    rewrite Esc in Fh. cbn in Fh. rewrite En in Fh.
    destruct Fh as [? | [_ ?]]; [lra | lia].
  - exfalso. destruct (Hdiff Hs) as (r & Hr & Hr1).
    apply (Permutation_in _ (Permutation_sym P)) in He0.
    destruct He0 as [-> | Hrest]; [rewrite Htop in Hr; injection Hr as <-; lra |].
    specialize (Fh _ Hrest). unfold ranks_before in Fh.
    rewrite Hr, Htop in Fh. cbn in Fh.
    destruct Fh as [? | [? _]]; lra.
Qed.

Lemma exact_match_heads_ranking_major_scale :
  let info := {| swaras := ["S"; "R2"; "G3"; "M1"; "P"; "D2"; "N3"]%string;
                 key_intervals := [0; 2; 4; 5; 7; 9; 11]%Z;
                 description := "29th Melakarta, very common"%string |} in
  usable_store RAGA_PATTERNS
  /\ In ("Shankarabharanam"%string, info) RAGA_PATTERNS
  /\ ideal_profile (key_intervals info) = Return (Arr major_scale_distribution)
  /\ exists name' info' rest,
       match_raga_on RAGA_PATTERNS (Arr major_scale_distribution) =
         Return ((name', Some 1) :: rest)
       /\ In (name', info') RAGA_PATTERNS
       /\ same_classes (key_intervals info') (key_intervals info)
       /\ forall n i, In (n, i) RAGA_PATTERNS ->
            same_classes (key_intervals i) (key_intervals info) ->
            (store_index RAGA_PATTERNS name' <= store_index RAGA_PATTERNS n)%Z.
Proof.
  cbv zeta.
  set (info := {| swaras := ["S"; "R2"; "G3"; "M1"; "P"; "D2"; "N3"]%string;
                  key_intervals := [0; 2; 4; 5; 7; 9; 11]%Z;
                  description := "29th Melakarta, very common"%string |}).
  assert (H1 : In ("Shankarabharanam"%string, info) RAGA_PATTERNS)
    by (cbn; right; right; left; reflexivity).
  assert (H2 : ideal_profile (key_intervals info)
               = Return (Arr major_scale_distribution))
    by exact major_scale_is_reference.
  split; [exact RAGA_PATTERNS_usable |]. split; [exact H1 |].
  split; [exact H2 |].
  exact (exact_match_heads_ranking RAGA_PATTERNS "Shankarabharanam" info
           major_scale_distribution RAGA_PATTERNS_usable H1 H2).
Defined.

(** ** The generated table as the store of the matcher *)

Lemma usable_profile_check (intervals : list Z) :
  negb (match intervals with [] => true | _ => false end)
  && forallb (fun i => (0 <=? i)%Z && (i <? 12)%Z) intervals
  && existsb (fun k => negb (existsb (Z.eqb k) intervals)) (range 0 12)
  = true ->
  usable_profile intervals.
Proof.
  intros H. apply andb_true_iff in H. destruct H as [H H3].
  apply andb_true_iff in H. destruct H as [H1 H2].
  split; [| split].
  - destruct intervals; [discriminate | discriminate].
  - apply Forall_forall. intros i Hi.
    rewrite forallb_forall in H2. specialize (H2 i Hi).
    apply andb_true_iff in H2. destruct H2 as [Ha Hb].
    apply Z.leb_le in Ha. apply Z.ltb_lt in Hb. lia.
  - apply existsb_exists in H3. destruct H3 as (k & Hk & Hn).
    exists k. split.
    + unfold range in Hk. apply in_map_iff in Hk.
      destruct Hk as (j & <- & Hj). apply in_seq in Hj.
      change (Z.to_nat (12 - 0)) with 12%nat in Hj. lia.
    + intros Hin. apply existsb_eqb_In in Hin. rewrite Hin in Hn.
      discriminate.
Qed.

(** X18.  The generated table can replace the profile table of the
    detector: its 72 names are distinct and each generated interval list
    is a usable profile, so that on every 12-bin observed array the
    matcher raises nothing and ranks all 72 names, by descending score
    with ties in index order. *)
Theorem generated_table_is_matchable :
  exists table,
    generate_all_melakartas = Return table
    /\ usable_store table
    /\ forall d, List.length d = 12%nat ->
         exists ranked,
           match_raga_on table (Arr d) = Return ranked
           /\ Permutation (map fst ranked) MELAKARTA_NAMES
           /\ StronglySorted (ranks_before (store_index table)) ranked.
Proof.
  destruct generate_all_melakartas as [table | e] eqn:E;
    [| vm_compute in E; discriminate].
  exists table. split; [reflexivity |].
  assert (Hnames : map fst table = MELAKARTA_NAMES).
  { assert (Return (map fst table) = Return MELAKARTA_NAMES) as H;
      [| now injection H].
    change (Return (map fst table))
      with (bind (Return table) (fun t => Return (map fst t))).
    rewrite <- E. vm_compute. reflexivity. }
  assert (Us : usable_store table).
  { split.
    - rewrite Hnames.
      assert (Hn : nodup string_dec MELAKARTA_NAMES = MELAKARTA_NAMES)
        by (vm_compute; reflexivity).
      rewrite <- Hn. apply NoDup_nodup.
    - assert (B : match generate_all_melakartas with
                  | Raise _ => false
                  | Return t =>
                      forallb (fun p =>
                        negb (match key_intervals (snd p) with
                              | [] => true
                              | _ => false
                              end)
                        && forallb (fun i => (0 <=? i)%Z && (i <? 12)%Z)
                                   (key_intervals (snd p))
                        && existsb (fun k =>
                                      negb (existsb (Z.eqb k)
                                              (key_intervals (snd p))))
                                   (range 0 12)) t
                  end = true) by (vm_compute; reflexivity).
      rewrite E in B. rewrite forallb_forall in B.
      apply Forall_forall. intros p Hp.
      apply usable_profile_check. now apply B. }
  split; [exact Us |].
  intros d Ld.
  destruct (match_raga_on_ranked table d Us Ld)
    as (scs & ranked & Em & F & P & S).
  exists ranked. split; [exact Em |]. split; [| exact S].
  rewrite <- Hnames, <- (Forall2_names _ fst fst _ _ F).
  now apply Permutation_map.
Qed.

End RankingExtras.
